(** * PLDB build driver (build.js): model and verified properties

    The driver is a Node.js script that shells out to external tools.  It is
    embedded as a computation in a small state / exception / output monad:

    - the state is the file system (a finite map from path names to entries)
      together with the global variable [serverProcess], whose handle
      stands for the two processes that [spawn] starts under [shell: true],
      the shell and the command the shell runs;
    - an exception is a thrown JavaScript [Error];
    - the output is the sequence of interactions of the process with its
      environment (console lines, [fs] calls, [execSync], [spawn], [kill]),
      in program order.

    External tools (the commands run by [execSync], the feature-page writer
    of Computer.js, the clock) are parameters collected in [Env].  Of the
    failures of the [fs] calls, those the file system decides are modelled
    (a missing file, a directory in place of a file); permissions and
    device errors are not. *)

From Stdlib Require Import Ascii.
From stdpp Require Import base strings list gmap.

Local Open Scope string_scope.
Local Open Scope list_scope.

(** ** JavaScript string and array helpers *)

Module Js.

(** The character written as a backslash-n escape in the source. *)
Definition nl : string := String (Ascii.ascii_of_nat 10) "".

(** The double-quote character. *)
Definition dq : string := String (Ascii.ascii_of_nat 34) "".

(** [s.repeat(n)] *)
Fixpoint repeat (s : string) (n : nat) : string :=
  match n with
  | O => ""
  | S k => s +:+ repeat s k
  end.

(** [s.includes(pat)] on strings. *)
Fixpoint includes (pat s : string) : bool :=
  String.prefix pat s ||
  match s with
  | "" => false
  | String _ s' => includes pat s'
  end.

(** [s.replace(/pat/g, rep)] for a pattern that matches the literal text
    [pat] (non-empty) and a replacement without dollar patterns: matches
    are found left to right and do not overlap.  [skip] counts the
    characters of the current match still to be dropped. *)
Fixpoint replace_from (pat rep : string) (skip : nat) (s : string) : string :=
  match s with
  | "" => ""
  | String c s' =>
      match skip with
      | S k => replace_from pat rep k s'
      | O =>
          if String.prefix pat s
          then rep +:+ replace_from pat rep (String.length pat - 1) s'
          else String c (replace_from pat rep 0 s')
      end
  end.

Definition replace_all (pat rep s : string) : string :=
  replace_from pat rep 0 s.

(** [arr.includes(x)] on arrays of strings. *)
Definition array_includes (x : string) (arr : list string) : bool :=
  existsb (String.eqb x) arr.

End Js.

(** ** The [path] module, as far as the driver uses it *)

Module Path.

Definition is_win32 (platform : string) : bool := String.eqb platform "win32".

(** [path.sep] *)
Definition sep (platform : string) : string :=
  if is_win32 platform then "\" else "/".

(** [path.join(a, b)] for a normalized, non-root directory name [a] and a
    plain file name [b]: the two joined by the separator. *)
Definition join (platform : string) (a b : string) : string :=
  a +:+ sep platform +:+ b.

(** [path.join(a, b1, ..., bn)] *)
Definition join_list (platform : string) (a : string) (bs : list string) : string :=
  fold_left (join platform) bs a.

Definition is_sep (platform : string) (c : Ascii.ascii) : bool :=
  Ascii.eqb c "/"%char || (is_win32 platform && Ascii.eqb c "\"%char).

Fixpoint all_sep (platform : string) (p : string) : bool :=
  match p with
  | "" => true
  | String c p' => is_sep platform c && all_sep platform p'
  end.

Fixpoint basename_from (platform : string) (p cur : string) : string :=
  match p with
  | "" => cur
  | String c p' =>
      if is_sep platform c
      then (if all_sep platform p' then cur else basename_from platform p' "")
      else basename_from platform p' (cur +:+ String c "")
  end.

Definition is_letter (c : Ascii.ascii) : bool :=
  let n := Ascii.nat_of_ascii c in
  ((65 <=? n)%nat && (n <=? 90)%nat) || ((97 <=? n)%nat && (n <=? 122)%nat).

(** On win32 a leading drive designator is not part of the base name. *)
Definition strip_drive (platform : string) (p : string) : string :=
  match p with
  | String a (String b rest) =>
      if is_win32 platform && is_letter a && Ascii.eqb b ":"%char
      then rest else p
  | _ => p
  end.

(** [path.basename(p)]: the last portion of [p], trailing separators
    ignored. *)
Definition basename (platform : string) (p : string) : string :=
  basename_from platform (strip_drive platform p) "".

End Path.

(** ** Environment, state and observable events *)

(** An entry of the file system. *)
Inductive entry :=
| File (content : string)
| Dir.

(** The [stdio] option of [execSync]. *)
Inductive stdio := Inherit | Pipe.

(** One interaction of the process with its environment. *)
Inductive event :=
| EConsoleLog (line : string)
| EConsoleError (line : string)
| EExistsSync (p : string) (found : bool)
| EReadFileSync (p : string)
| EWriteFileSync (p : string) (content : string)
| EExecSync (cmd cwd : string) (io : stdio) (ok : bool)
| EWriteAllFeaturePages (ok : bool)
| ESpawn (cmd : string) (args : list string) (cwd : string)
| EKill
| EOnSIGINT
| EUncaughtException (message : string).

Global Instance entry_eq_dec : EqDecision entry.
Proof. solve_decision. Defined.

Global Instance stdio_eq_dec : EqDecision stdio.
Proof. solve_decision. Defined.

Global Instance event_eq_dec : EqDecision event.
Proof. solve_decision. Defined.

(** What the driver does not own.  [execSync_effect cmd cwd fs] is the
    behaviour of an external command started in [cwd] on the file system
    [fs]: [None] for exit status 0, [Some msg] for an [Error] with message
    [msg], and the file system it leaves.  [writeAllFeaturePages_effect] is
    [require('./Computer.js')] followed by [Tables.writeAllFeaturePages()].
    [elapsed] is the formatted duration [((Date.now() - startTime) /
    1000).toFixed(1)].  [port_in_use] tells whether port 3000 is already
    bound by another process when the server is spawned. *)
Record Env := {
  ROOT : string;
  platform : string;
  argv : list string;
  execSync_effect : string -> string -> gmap string entry -> option string * gmap string entry;
  writeAllFeaturePages_effect : gmap string entry -> option string * gmap string entry;
  elapsed : string;
  port_in_use : bool
}.

(** The processes behind the [ChildProcess] handle that [spawn] returns
    under [shell: true].  The handle is the one of the shell ([/bin/sh -c]
    on Unix, [cmd.exe /d /s /c] on Windows); the command, here
    [npx serve .], runs under the shell as a process of its own, and it is
    that process which binds port 3000 and answers on it. *)
Record child := {
  (** the server has bound port 3000 *)
  bound_port : bool;
  (** the shell, which is the process of the handle, is running *)
  shell_running : bool;
  (** the command the shell has started, the server, is running *)
  server_running : bool
}.

(** [serverProcess] is the global variable of build.js ([None] is [null]). *)
Record world := {
  files : gmap string entry;
  serverProcess : option child
}.

Definition set_files (w : world) (fs : gmap string entry) : world :=
  {| files := fs; serverProcess := serverProcess w |}.

Definition set_serverProcess (w : world) (s : option child) : world :=
  {| files := files w; serverProcess := s |}.

(** A thrown [Error]. *)
Record exn := Error { message : string }.

Inductive res (A : Type) :=
| Ok (a : A)
| Throw (e : exn).
Arguments Ok {A} a.
Arguments Throw {A} e.

(** The monad of the driver. *)
Definition M (A : Type) : Type := world -> res A * world * list event.

Definition ret {A} (a : A) : M A := fun w => (Ok a, w, []).

Definition bind {A B} (m : M A) (k : A -> M B) : M B :=
  fun w =>
    match m w with
    | (Ok a, w1, t1) =>
        match k a w1 with
        | (r, w2, t2) => (r, w2, t1 ++ t2)
        end
    | (Throw e, w1, t1) => (Throw e, w1, t1)
    end.

Definition throw {A} (e : exn) : M A := fun w => (Throw e, w, []).

(** [try { m } catch (err) { h err }] *)
Definition try_catch {A} (m : M A) (h : exn -> M A) : M A :=
  fun w =>
    match m w with
    | (Ok a, w1, t1) => (Ok a, w1, t1)
    | (Throw e, w1, t1) =>
        match h e w1 with
        | (r, w2, t2) => (r, w2, t1 ++ t2)
        end
    end.

Declare Scope js_scope.
Delimit Scope js_scope with js.
Notation "x <- m ;; k" := (bind m (fun x => k))
  (at level 100, m at next level, right associativity) : js_scope.
Notation "m ;; k" := (bind m (fun _ => k))
  (at level 100, right associativity) : js_scope.
Local Open Scope js_scope.

(** [for (const x of xs) { body x }] *)
Fixpoint for_of {A} (xs : list A) (body : A -> M unit) : M unit :=
  match xs with
  | [] => ret tt
  | x :: xs' => body x ;; for_of xs' body
  end.

(** The three components of what a computation, or the script, yields. *)
Definition outcome_of {A} (x : A * world * list event) : A := x.1.1.
Definition world_of {A} (x : A * world * list event) : world := x.1.2.
Definition trace_of {A} (x : A * world * list event) : list event := x.2.

(** ** Primitive operations *)

Section Driver.

Variable env : Env.

Definition console_log (line : string) : M unit :=
  fun w => (Ok tt, w, [EConsoleLog line]).

Definition console_error (line : string) : M unit :=
  fun w => (Ok tt, w, [EConsoleError line]).

(** [fs.existsSync(p)] *)
Definition existsSync (p : string) : M bool :=
  fun w =>
    let found := match files w !! p with Some _ => true | None => false end in
    (Ok found, w, [EExistsSync p found]).

(** [fs.readFileSync(p, 'utf8')]: a missing path and a directory throw. *)
Definition readFileSync (p : string) : M string :=
  fun w =>
    match files w !! p with
    | Some (File content) => (Ok content, w, [EReadFileSync p])
    | Some Dir =>
        (Throw (Error "EISDIR: illegal operation on a directory, read"), w, [])
    | None =>
        (Throw (Error ("ENOENT: no such file or directory, open '" +:+ p +:+ "'")), w, [])
    end.

(** [fs.writeFileSync(p, content)]: creates or replaces the file; a
    directory at [p] throws. *)
Definition writeFileSync (p content : string) : M unit :=
  fun w =>
    match files w !! p with
    | Some Dir =>
        (Throw (Error ("EISDIR: illegal operation on a directory, open '" +:+ p +:+ "'")), w, [])
    | _ => (Ok tt, set_files w (<[p := File content]> (files w)), [EWriteFileSync p content])
    end.

(** [execSync(cmd, { cwd, stdio })] *)
Definition execSync (cmd cwd : string) (io : stdio) : M unit :=
  fun w =>
    match execSync_effect env cmd cwd (files w) with
    | (None, fs') => (Ok tt, set_files w fs', [EExecSync cmd cwd io true])
    | (Some msg, fs') => (Throw (Error msg), set_files w fs', [EExecSync cmd cwd io false])
    end.

(** [const { Tables } = require('./Computer.js'); Tables.writeAllFeaturePages()] *)
Definition writeAllFeaturePages : M unit :=
  fun w =>
    match writeAllFeaturePages_effect env (files w) with
    | (None, fs') => (Ok tt, set_files w fs', [EWriteAllFeaturePages true])
    | (Some msg, fs') => (Throw (Error msg), set_files w fs', [EWriteAllFeaturePages false])
    end.

(** [spawn(cmd, args, { cwd, stdio: 'ignore', shell: true })]: the shell
    is started, and the command under it, whatever the state of the port;
    whether the command binds port 3000 is not reported to the parent. *)
Definition spawn (cmd : string) (args : list string) (cwd : string) : M child :=
  fun w =>
    let c := {| bound_port := negb (port_in_use env);
                shell_running := true;
                server_running := true |} in
    (Ok c, w, [ESpawn cmd args cwd]).

(** [if (serverProcess) serverProcess.kill()]: SIGTERM is sent to the
    process of the handle, which is the shell.  The processes the shell has
    started are not signalled: the server keeps running, and keeps its
    port. *)
Definition kill_serverProcess : M unit :=
  fun w =>
    match serverProcess w with
    | Some c =>
        (Ok tt,
         set_serverProcess w
           (Some {| bound_port := bound_port c;
                    shell_running := false;
                    server_running := server_running c |}),
         [EKill])
    | None => (Ok tt, w, [])
    end.

(** [serverProcess = c] *)
Definition assign_serverProcess (c : child) : M unit :=
  fun w => (Ok tt, set_serverProcess w (Some c), []).

(** ** Constants of build.js *)

Definition pjoin (a : string) (bs : list string) : string :=
  Path.join_list (platform env) a bs.

Definition SCROLL_CLI : string :=
  pjoin (ROOT env) ["node_modules"; "scroll-cli"; "scroll.js"].

Definition SUBFOLDERS : list string :=
  ["blog"; "books"; "concepts"; "creators"; "features"; "lists"; "pages"].

(** The command text [node cli.js buildParsersFile]. *)
Definition parsers_cmd : string := "node cli.js buildParsersFile".

(** The command text [node <quoted SCROLL_CLI> build]. *)
Definition scroll_build_cmd : string :=
  "node " +:+ Js.dq +:+ SCROLL_CLI +:+ Js.dq +:+ " build".

Definition separator : string := Js.repeat "=" 50.

(** ** Functions of build.js *)

Definition run (cmd cwd : string) : M unit :=
  console_log (Js.nl +:+ "📂 [" +:+ Path.basename (platform env) cwd +:+ "] Running: " +:+ cmd) ;;
  try_catch (execSync cmd cwd Inherit)
    (fun err =>
       console_error ("❌ Command failed: " +:+ cmd) ;;
       throw err).

Definition runQuiet (cmd cwd : string) : M unit :=
  console_log ("📂 [" +:+ Path.basename (platform env) cwd +:+ "] Running: " +:+ cmd) ;;
  try_catch (execSync cmd cwd Pipe)
    (fun err =>
       console_error ("❌ Command failed: " +:+ cmd) ;;
       throw err).

Definition dirname_pat : string := "Utils.posix.dirname(this.filePath)".
Definition dirname_rep : string :=
  "require(" +:+ Js.dq +:+ "path" +:+ Js.dq +:+ ").dirname(this.filePath)".
Definition basename_pat : string := "Utils.posix.basename(this.filePath)".
Definition basename_rep : string :=
  "require(" +:+ Js.dq +:+ "path" +:+ Js.dq +:+ ").basename(this.filePath)".

(** The two chained [replace] calls of the patch. *)
Definition patch_content (content : string) : string :=
  Js.replace_all basename_pat basename_rep
    (Js.replace_all dirname_pat dirname_rep content).

Definition rootParsersPath : string :=
  pjoin (ROOT env) ["node_modules"; "scroll-cli"; "parsers"; "root.parsers"].

Definition nestedPath : string :=
  pjoin (ROOT env)
    ["node_modules"; "scroll-cli"; "node_modules"; "scroll-cli"; "parsers"; "root.parsers"].

Definition patchScrollCliIfNeeded : M unit :=
  if negb (String.eqb (platform env) "win32") then
    console_log "  Not on Windows, skipping patch"
  else
    found <- existsSync rootParsersPath ;;
    if negb found then
      console_log "  scroll-cli root.parsers not found, skipping patch"
    else
      content <- readFileSync rootParsersPath ;;
      if Js.includes "Utils.posix.dirname" content then
        console_log "  Patching scroll-cli for Windows path compatibility..." ;;
        writeFileSync rootParsersPath (patch_content content) ;;
        console_log "  ✅ scroll-cli patched" ;;
        nested <- existsSync nestedPath ;;
        if nested then
          nestedContent <- readFileSync nestedPath ;;
          writeFileSync nestedPath (patch_content nestedContent) ;;
          console_log "  ✅ Nested scroll-cli patched"
        else ret tt
      else
        console_log "  scroll-cli already patched or uses compatible paths".

(** The body of the loop of step 5 for one entry of [SUBFOLDERS]. *)
Definition build_subfolder (dir : string) : M unit :=
  let folderPath := pjoin (ROOT env) [dir] in
  found <- existsSync folderPath ;;
  if found then
    console_log (Js.nl +:+ "  📁 Building " +:+ dir +:+ "/...") ;;
    try_catch
      (runQuiet scroll_build_cmd folderPath ;;
       console_log ("  ✅ " +:+ dir +:+ "/ built successfully"))
      (fun err =>
         console_error ("  ⚠️ " +:+ dir +:+ "/ build had errors (continuing...)"))
  else ret tt.

Definition build : M unit :=
  console_log "🔨 PLDB Build Script" ;;
  console_log separator ;;
  console_log (Js.nl +:+ "📋 Step 1: Building parsers file...") ;;
  run parsers_cmd (ROOT env) ;;
  console_log (Js.nl +:+ "🔧 Step 2: Checking scroll-cli Windows compatibility...") ;;
  patchScrollCliIfNeeded ;;
  console_log (Js.nl +:+ "📋 Step 3: Building root folder...") ;;
  run scroll_build_cmd (ROOT env) ;;
  console_log (Js.nl +:+ "📋 Step 4: Generating feature pages...") ;;
  writeAllFeaturePages ;;
  console_log "✅ Feature pages generated" ;;
  console_log (Js.nl +:+ "📋 Step 5: Building subfolders...") ;;
  for_of SUBFOLDERS build_subfolder ;;
  console_log (Js.nl +:+ separator) ;;
  console_log ("✅ Build complete in " +:+ elapsed env +:+ "s").

Definition quoted (s : string) : string := Js.dq +:+ s +:+ Js.dq.

(** The template literal of [writeMaintenancePage], line by line. *)
Definition maintenanceHtml : string :=
  String.concat Js.nl
    [ "<!DOCTYPE html>";
      "<html lang=" +:+ quoted "en" +:+ ">";
      "<head>";
      "  <meta charset=" +:+ quoted "UTF-8" +:+ ">";
      "  <meta name=" +:+ quoted "viewport" +:+ " content="
        +:+ quoted "width=device-width, initial-scale=1.0" +:+ ">";
      "  <title>PLDB - Building...</title>";
      "  <style>";
      "    body {";
      "      font-family: -apple-system, BlinkMacSystemFont, "
        +:+ quoted "Segoe UI" +:+ ", Roboto, sans-serif;";
      "      display: flex;";
      "      justify-content: center;";
      "      align-items: center;";
      "      min-height: 100vh;";
      "      margin: 0;";
      "      background-color: #f5f5f5;";
      "      color: #333;";
      "    }";
      "    .container { text-align: center; padding: 2rem; }";
      "    h1 { font-size: 2rem; margin-bottom: 0.5rem; }";
      "    p { font-size: 1.2rem; color: #666; }";
      "    .spinner {";
      "      margin: 2rem auto;";
      "      width: 40px;";
      "      height: 40px;";
      "      border: 4px solid #ddd;";
      "      border-top-color: #333;";
      "      border-radius: 50%;";
      "      animation: spin 1s linear infinite;";
      "    }";
      "    @keyframes spin { to { transform: rotate(360deg); } }";
      "  </style>";
      "  <meta http-equiv=" +:+ quoted "refresh" +:+ " content=" +:+ quoted "10" +:+ ">";
      "</head>";
      "<body>";
      "  <div class=" +:+ quoted "container" +:+ ">";
      "    <h1>PLDB</h1>";
      "    <div class=" +:+ quoted "spinner" +:+ "></div>";
      "    <p>Site is rebuilding. This page will refresh automatically.</p>";
      "  </div>";
      "</body>";
      "</html>" ].

Definition index_html : string := pjoin (ROOT env) ["index.html"].

Definition writeMaintenancePage : M unit :=
  writeFileSync index_html maintenanceHtml ;;
  console_log "  Wrote maintenance page to index.html".

Definition startBackgroundServer : M child :=
  console_log "  Starting background server on http://localhost:3000 ..." ;;
  spawn "npx" ["serve"; "."] (ROOT env).

(** ** The main part of the script *)

(** [process.argv.slice(2)] *)
Definition args : list string := drop 2 (argv env).

Definition shouldServe : bool :=
  Js.array_includes "--serve" args || Js.array_includes "-s" args.

(** How the process stands when the script has nothing left to run:
    it has exited with a status, or it stays alive with the [SIGINT]
    handler installed.  [process.exit] ends the driver alone: the processes
    it has spawned are left as they are. *)
Inductive outcome :=
| Exited (code : nat)
| Serving.

(** The statements before the call of [build]. *)
Definition setup : M unit :=
  if shouldServe then
    console_log (Js.nl +:+ "🌐 Setting up maintenance page before build...") ;;
    writeMaintenancePage ;;
    c <- startBackgroundServer ;;
    assign_serverProcess c
  else ret tt.

(** The handler installed by [process.on('SIGINT', ...)]. *)
Definition SIGINT_handler : M outcome :=
  console_log (Js.nl +:+ "🛑 Shutting down server...") ;;
  kill_serverProcess ;;
  ret (Exited 0).

(** The callback of [.then]. *)
Definition on_fulfilled : M outcome :=
  if shouldServe then
    console_log (Js.nl +:+ "🌐 Server is running at http://localhost:3000") ;;
    console_log "   Build complete - server is now serving the real site" ;;
    console_log ("   Press Ctrl+C to stop" +:+ Js.nl) ;;
    (fun w => (Ok Serving, w, [EOnSIGINT]))
  else
    console_log (Js.nl +:+ "💡 To start a local server, run: npm run serve") ;;
    console_log "   Or: node build.js --serve" ;;
    ret (Exited 0).

(** The callback of [.catch]. *)
Definition on_rejected (err : exn) : M outcome :=
  console_error (Js.nl +:+ "❌ Build failed: " +:+ message err) ;;
  kill_serverProcess ;;
  ret (Exited 1).

(** The whole script, started on the file system [fs0].  An exception
    that reaches the top level ends the process with status 1. *)
Definition main (fs0 : gmap string entry) : outcome * world * list event :=
  let w0 := {| files := fs0; serverProcess := None |} in
  match setup w0 with
  | (Throw e, w1, t1) => (Exited 1, w1, t1 ++ [EUncaughtException (message e)])
  | (Ok _, w1, t1) =>
      match try_catch (build ;; on_fulfilled) on_rejected w1 with
      | (Ok o, w2, t2) => (o, w2, t1 ++ t2)
      | (Throw e, w2, t2) => (Exited 1, w2, t1 ++ t2 ++ [EUncaughtException (message e)])
      end
  end.

(** The process from its start to its exit: a process left [Serving]
    ends when the operator interrupts it, through [SIGINT_handler]. *)
Definition run_to_exit (fs0 : gmap string entry) : outcome * world * list event :=
  match main fs0 with
  | (Serving, w, t) =>
      match SIGINT_handler w with
      | (Ok o, w', t') => (o, w', t ++ t')
      | (Throw e, w', t') => (Exited 1, w', t ++ t' ++ [EUncaughtException (message e)])
      end
  | r => r
  end.

Definition exit_status (fs0 : gmap string entry) : option nat :=
  match run_to_exit fs0 with
  | (Exited code, _, _) => Some code
  | (Serving, _, _) => None
  end.

End Driver.

(** ** Variations of an environment *)

(** [env] with the state of port 3000 set to [b]. *)
Definition with_port_in_use (env : Env) (b : bool) : Env :=
  {| ROOT := ROOT env;
     platform := platform env;
     argv := argv env;
     execSync_effect := execSync_effect env;
     writeAllFeaturePages_effect := writeAllFeaturePages_effect env;
     elapsed := elapsed env;
     port_in_use := b |}.

(** ** Concrete environments

    A checkout in /pldb on Linux in which every subfolder but features
    exists.  [fails cmd cwd] tells which commands exit with a non-zero
    status; the root build regenerates index.html. *)

Definition demo_fs : gmap string entry :=
  list_to_map
    [ ("/pldb/blog", Dir); ("/pldb/books", Dir); ("/pldb/concepts", Dir);
      ("/pldb/creators", Dir); ("/pldb/lists", Dir); ("/pldb/pages", Dir);
      ("/pldb/index.html", File "<html>previous build</html>") ].

Definition is_root_build (cmd cwd : string) : bool :=
  String.eqb cwd "/pldb" && negb (String.eqb cmd "node cli.js buildParsersFile").

Definition demo_effect (fails : string -> string -> bool) (cmd cwd : string)
    (fs : gmap string entry) : option string * gmap string entry :=
  if fails cmd cwd then (Some ("Command failed: " +:+ cmd), fs)
  else if is_root_build cmd cwd
       then (None, <["/pldb/index.html" := File "<html>PLDB</html>"]> fs)
       else (None, fs).

Definition demo_env (args : list string) (fails : string -> string -> bool)
    (busy : bool) : Env :=
  {| ROOT := "/pldb";
     platform := "linux";
     argv := "node" :: "build.js" :: args;
     execSync_effect := demo_effect fails;
     writeAllFeaturePages_effect := fun fs => (None, fs);
     elapsed := "12.3";
     port_in_use := busy |}.

Definition never_fails (cmd cwd : string) : bool := false.

Definition fails_in (dir : string) (cmd cwd : string) : bool := String.eqb cwd dir.

(** Every step succeeds. *)
Definition env_plain : Env := demo_env [] never_fails false.

(** Every step succeeds, under [--serve]. *)
Definition env_serve : Env := demo_env ["--serve"] never_fails false.

(** Under [--serve], with port 3000 bound by another process. *)
Definition env_serve_busy : Env := demo_env ["--serve"] never_fails true.

(** The generator fails in books. *)
Definition env_books_fails : Env := demo_env [] (fails_in "/pldb/books") false.

(** The root build fails. *)
Definition env_root_fails : Env := demo_env [] is_root_build false.


(** On Windows, with an unpatched scroll-cli. *)
Definition env_win32 : Env :=
  {| ROOT := "C:\pldb";
     platform := "win32";
     argv := ["node"; "build.js"];
     execSync_effect := demo_effect never_fails;
     writeAllFeaturePages_effect := fun fs => (None, fs);
     elapsed := "12.3";
     port_in_use := false |}.

Definition win32_fs : gmap string entry :=
  {[ "C:\pldb\node_modules\scroll-cli\parsers\root.parsers" :=
       File "dir Utils.posix.dirname(this.filePath) base Utils.posix.basename(this.filePath)" ]}.

(** Step 1 fails. *)
Definition parsers_fails (cmd cwd : string) : bool :=
  String.eqb cmd "node cli.js buildParsersFile".

Definition env_parsers_fails : Env := demo_env [] parsers_fails false.

(** The feature-page step fails. *)
Definition env_pages_fails : Env :=
  {| ROOT := "/pldb";
     platform := "linux";
     argv := ["node"; "build.js"];
     execSync_effect := demo_effect never_fails;
     writeAllFeaturePages_effect := fun fs => (Some "Cannot find module './Computer.js'", fs);
     elapsed := "12.3";
     port_in_use := false |}.

(** A directory sits where index.html should be. *)
Definition fs_index_dir : gmap string entry := <["/pldb/index.html" := Dir]> demo_fs.

(** The content of root.parsers in [win32_fs]. *)
Definition unpatched_content : string :=
  "dir Utils.posix.dirname(this.filePath) base Utils.posix.basename(this.filePath)".

(** ** Conditions on strings, and on the events of computations *)

(** No character of [s] is [c]. *)
Fixpoint char_free (c : ascii) (s : string) : bool :=
  match s with
  | "" => true
  | String d s' => negb (Ascii.eqb c d) && char_free c s'
  end.

(** No non-empty suffix of [u] can be laid over the beginning of [rep]:
    neither is a prefix of the other. *)
Fixpoint tails_incompatible (u rep : string) : bool :=
  match u with
  | "" => true
  | String _ u' =>
      negb (String.prefix u rep || String.prefix rep u) && tails_incompatible u' rep
  end.

(** Computations all of whose events satisfy [P], in every world. *)
Definition emits {A} (P : event → Prop) (m : M A) : Prop :=
  ∀ w, Forall P (trace_of (m w)).

(** * Traces of the driver *)

Section Properties.

Variable env : Env.

(** The directory of a subfolder, [path.join(ROOT, dir)]. *)
Definition path (d : string) : string := pjoin env (ROOT env) [d].

Definition building_line (d : string) : string := Js.nl +:+ "  📁 Building " +:+ d +:+ "/...".
Definition built_line (d : string) : string := "  ✅ " +:+ d +:+ "/ built successfully".
Definition warning_line (d : string) : string :=
  "  ⚠️ " +:+ d +:+ "/ build had errors (continuing...)".
Definition runQuiet_line (cmd cwd : string) : string :=
  "📂 [" +:+ Path.basename (platform env) cwd +:+ "] Running: " +:+ cmd.
Definition failed_line (cmd : string) : string := "❌ Command failed: " +:+ cmd.

(** The events of an iteration whose directory exists, by the outcome of the
    generator. *)
Definition unit_events (d : string) (ok : bool) : list event :=
  [ EExistsSync (path d) true;
    EConsoleLog (building_line d);
    EConsoleLog (runQuiet_line (scroll_build_cmd env) (path d));
    EExecSync (scroll_build_cmd env) (path d) Pipe ok ] ++
  (if ok then [EConsoleLog (built_line d)]
   else [EConsoleError (failed_line (scroll_build_cmd env)); EConsoleError (warning_line d)]).

(** The traces of the loop over [dirs]. *)
Inductive loop_trace : list string → list event → Prop :=
| loop_done : loop_trace [] []
| loop_skip d dirs t :
    loop_trace dirs t → loop_trace (d :: dirs) (EExistsSync (path d) false :: t)
| loop_run d ok dirs t :
    loop_trace dirs t → loop_trace (d :: dirs) (unit_events d ok ++ t).

(** Computations that neither read nor change [serverProcess]. *)
Definition framed {A} (m : M A) : Prop :=
  ∀ w s, m (set_serverProcess w s) =
         match m w with (r, w', t) => (r, set_serverProcess w' s, t) end.

(** The events the patch step can produce. *)
Definition patch_event (e : event) : Prop :=
  match e with
  | EConsoleLog _ | EReadFileSync _ => True
  | EExistsSync p _ | EWriteFileSync p _ => p = rootParsersPath env ∨ p = nestedPath env
  | _ => False
  end.

Definition run_line (cmd cwd : string) : string :=
  Js.nl +:+ "📂 [" +:+ Path.basename (platform env) cwd +:+ "] Running: " +:+ cmd.

(** The events of [run cmd cwd], by the outcome of the command. *)
Definition run_events (cmd cwd : string) (ok : bool) : list event :=
  [EConsoleLog (run_line cmd cwd); EExecSync cmd cwd Inherit ok] ++
  (if ok then [] else [EConsoleError (failed_line cmd)]).

Definition step1_events (ok : bool) : list event :=
  [ EConsoleLog "🔨 PLDB Build Script";
    EConsoleLog separator;
    EConsoleLog (Js.nl +:+ "📋 Step 1: Building parsers file...") ] ++
  run_events parsers_cmd (ROOT env) ok.

Definition step2_events (pt : list event) : list event :=
  EConsoleLog (Js.nl +:+ "🔧 Step 2: Checking scroll-cli Windows compatibility...") :: pt.

Definition step3_events (ok : bool) : list event :=
  EConsoleLog (Js.nl +:+ "📋 Step 3: Building root folder...") ::
  run_events (scroll_build_cmd env) (ROOT env) ok.

Definition step4_events (ok : bool) : list event :=
  [ EConsoleLog (Js.nl +:+ "📋 Step 4: Generating feature pages...");
    EWriteAllFeaturePages ok ] ++
  (if ok then [EConsoleLog "✅ Feature pages generated"] else []).

Definition step5_line : string := Js.nl +:+ "📋 Step 5: Building subfolders...".

(** The two lines [build] prints after the loop. *)
Definition complete_events (elapsed : string) : list event :=
  [ EConsoleLog (Js.nl +:+ separator);
    EConsoleLog ("✅ Build complete in " +:+ elapsed +:+ "s") ].

(** The traces of [build], by the step that throws, if any. *)
Inductive build_run : res unit → list event → Prop :=
| build_fail_parsers e :
    build_run (Throw e) (step1_events false)
| build_fail_patch e pt :
    Forall patch_event pt →
    build_run (Throw e) (step1_events true ++ step2_events pt)
| build_fail_root e pt :
    Forall patch_event pt →
    build_run (Throw e) (step1_events true ++ step2_events pt ++ step3_events false)
| build_fail_pages e pt :
    Forall patch_event pt →
    build_run (Throw e)
      (step1_events true ++ step2_events pt ++ step3_events true ++ step4_events false)
| build_complete pt body :
    Forall patch_event pt →
    loop_trace SUBFOLDERS body →
    build_run (Ok tt)
      (step1_events true ++ step2_events pt ++ step3_events true ++ step4_events true ++
       EConsoleLog step5_line :: body ++ complete_events (elapsed env)).

Definition setup_line : string := Js.nl +:+ "🌐 Setting up maintenance page before build...".

(** The events of the statements before [build] under [--serve], when the
    maintenance page can be written. *)
Definition setup_events : list event :=
  [ EConsoleLog setup_line;
    EWriteFileSync (index_html env) maintenanceHtml;
    EConsoleLog "  Wrote maintenance page to index.html";
    EConsoleLog "  Starting background server on http://localhost:3000 ...";
    ESpawn "npx" ["serve"; "."] (ROOT env) ].

(** The events of the callback of [.then]. *)
Definition then_events (serve : bool) : list event :=
  if serve then
    [ EConsoleLog (Js.nl +:+ "🌐 Server is running at http://localhost:3000");
      EConsoleLog "   Build complete - server is now serving the real site";
      EConsoleLog ("   Press Ctrl+C to stop" +:+ Js.nl);
      EOnSIGINT ]
  else
    [ EConsoleLog (Js.nl +:+ "💡 To start a local server, run: npm run serve");
      EConsoleLog "   Or: node build.js --serve" ].

Definition build_failed_line (msg : string) : string :=
  Js.nl +:+ "❌ Build failed: " +:+ msg.

(** The shell and the server as [spawn] starts them. *)
Definition started_child : child :=
  {| bound_port := negb (port_in_use env);
     shell_running := true;
     server_running := true |}.

(** The same after [kill()]: the shell has been terminated, the server has
    not. *)
Definition child_after_kill : child :=
  {| bound_port := negb (port_in_use env);
     shell_running := false;
     server_running := true |}.

(** The runs of the script on the file system [fs0]: outcome, final value of
    [serverProcess] and trace. *)
Inductive main_run (fs0 : gmap string entry) : outcome → option child → list event → Prop :=
| main_setup_throws msg :
    shouldServe env = true →
    fs0 !! index_html env = Some Dir →
    main_run fs0 (Exited 1) None [EConsoleLog setup_line; EUncaughtException msg]
| main_built t :
    shouldServe env = false →
    build_run (Ok tt) t →
    main_run fs0 (Exited 0) None (t ++ then_events false)
| main_failed e t :
    shouldServe env = false →
    build_run (Throw e) t →
    main_run fs0 (Exited 1) None (t ++ [EConsoleError (build_failed_line (message e))])
| main_serve_built t :
    shouldServe env = true →
    fs0 !! index_html env ≠ Some Dir →
    build_run (Ok tt) t →
    main_run fs0 Serving (Some started_child) (setup_events ++ t ++ then_events true)
| main_serve_failed e t :
    shouldServe env = true →
    fs0 !! index_html env ≠ Some Dir →
    build_run (Throw e) t →
    main_run fs0 (Exited 1) (Some child_after_kill)
      (setup_events ++ t ++ [EConsoleError (build_failed_line (message e)); EKill]).

(** The world in which [build] starts under [--serve]. *)
Definition world_after_setup (fs0 : gmap string entry) : world :=
  {| files := <[index_html env := File maintenanceHtml]> fs0;
     serverProcess := Some started_child |}.

(** The working directories of the commands run, in order. *)
Definition exec_cwds (tr : list event) : list string :=
  omap (λ e, match e with EExecSync _ cwd _ _ => Some cwd | _ => None end) tr.

(** The events the loop can produce. *)
Definition loop_event (e : event) : Prop :=
  match e with
  | EConsoleLog _ | EConsoleError _ | EExistsSync _ _ | EExecSync _ _ Pipe _ => True
  | _ => False
  end.

(** The events before the loop of step 5. *)
Definition head_event (e : event) : Prop :=
  match e with
  | EConsoleLog _ | EReadFileSync _ | EWriteAllFeaturePages _ | ESpawn _ _ _ => True
  | EConsoleError line => ∃ cmd, line = failed_line cmd
  | EExistsSync p _ => p = rootParsersPath env ∨ p = nestedPath env
  | EWriteFileSync p _ => p = rootParsersPath env ∨ p = nestedPath env ∨ p = index_html env
  | EExecSync _ cwd io _ => cwd = ROOT env ∧ io = Inherit
  | _ => False
  end.

(** The events after a fatal failure. *)
Definition abort_event (e : event) : Prop :=
  match e with
  | EConsoleError line => ∃ msg, line = build_failed_line msg
  | EKill | EUncaughtException _ => True
  | _ => False
  end.

(** In a run that reaches step 5, no earlier step has failed. *)
Definition success_event (e : event) : Prop :=
  match e with
  | EExecSync _ _ _ ok | EWriteAllFeaturePages ok => ok = true
  | EConsoleError _ => False
  | _ => True
  end.

(** An event that concerns the directory of a subfolder. *)
Definition subfolder_event (e : event) : Prop :=
  match e with
  | EExistsSync p _ => ∃ d, d ∈ SUBFOLDERS ∧ p = path d
  | EExecSync _ cwd _ _ => ∃ d, cwd = path d
  | _ => False
  end.

(** The events [build] can produce: it spawns and kills nothing and does
    not write index.html. *)
Definition build_only_event (e : event) : Prop :=
  match e with
  | ESpawn _ _ _ | EKill | EOnSIGINT | EUncaughtException _ => False
  | EWriteFileSync p _ => p ≠ index_html env
  | _ => True
  end.


(** Computations that leave the entry of index.html as it is. *)
Definition index_stable {A} (m : M A) : Prop :=
  ∀ w, files (world_of (m w)) !! index_html env = files w !! index_html env.

(** ** Observations on traces and worlds *)

(** The lines printed, on either stream. *)
Definition console_lines (tr : list event) : list string :=
  omap (λ e, match e with
             | EConsoleLog line | EConsoleError line => Some line
             | _ => None
             end) tr.

(** What follows the first occurrence of [e] in a trace. *)
Fixpoint after_event (e : event) (tr : list event) : list event :=
  match tr with
  | [] => []
  | x :: t => if decide (x = e) then t else after_event e t
  end.

(** A line printed after the warning of the subfolder [d] names [d]. *)
Definition named_in_summary (d : string) (tr : list event) : bool :=
  existsb (Js.includes d) (console_lines (after_event (EConsoleError (warning_line d)) tr)).

(** The server started by the driver is running. *)
Definition server_up (w : world) : bool :=
  match serverProcess w with
  | Some c => server_running c
  | None => false
  end.


(** What the patch step makes of a file: [p] patched if it is a file. *)
Definition patch_file (p : string) (fs : gmap string entry) : gmap string entry :=
  match fs !! p with
  | Some (File content) => <[p := File (patch_content content)]> fs
  | _ => fs
  end.

(** The file system the patch step leaves. *)
Definition patch_files (fs : gmap string entry) : gmap string entry :=
  if String.eqb (platform env) "win32" then
    match fs !! rootParsersPath env with
    | Some (File content) =>
        if Js.includes "Utils.posix.dirname" content
        then patch_file (nestedPath env) (patch_file (rootParsersPath env) fs)
        else fs
    | _ => fs
    end
  else fs.

(** * Proofs *)

(** ** Facts about strings and paths *)

Lemma append_cons (c : ascii) (s t : string) : String c s +:+ t = String c (s +:+ t).
Proof. reflexivity. Qed.

Lemma append_nil_l (s : string) : "" +:+ s = s.
Proof. reflexivity. Qed.

Lemma append_assoc (a b c : string) : (a +:+ b) +:+ c = a +:+ (b +:+ c).
Proof. induction a as [|x a IH]; [done | by rewrite !append_cons, IH]. Qed.

Lemma append_inj_l (a b c : string) : a +:+ b = a +:+ c → b = c.
Proof. induction a as [|x a IH]; [done | rewrite !append_cons; intros [= H]; auto]. Qed.

Lemma length_append (a b : string) :
  String.length (a +:+ b) = String.length a + String.length b.
Proof. induction a as [|x a IH]; [done | rewrite append_cons; simpl; by rewrite IH]. Qed.

Lemma append_inj_r (a b s : string) : a +:+ s = b +:+ s → a = b.
Proof.
  revert b. induction a as [|x a IH]; intros [|y b] H.
  - done.
  - apply (f_equal String.length) in H.
    rewrite append_nil_l, append_cons in H. simpl in H.
    rewrite length_append in H. lia.
  - apply (f_equal String.length) in H.
    rewrite append_nil_l, append_cons in H. simpl in H.
    rewrite length_append in H. lia.
  - rewrite !append_cons in H. injection H as -> H. f_equal. by apply IH.
Qed.

Lemma path_eq d : path d = ROOT env +:+ Path.sep (platform env) +:+ d.
Proof. reflexivity. Qed.

Lemma path_inj d d' : path d = path d' → d = d'.
Proof. rewrite !path_eq. intros H. by do 2 apply append_inj_l in H. Qed.

Lemma path_neq_ROOT d : path d ≠ ROOT env.
Proof.
  rewrite path_eq. intros H. apply (f_equal String.length) in H.
  rewrite !length_append in H. unfold Path.sep in H.
  destruct (Path.is_win32 _); simpl in H; lia.
Qed.

Lemma path_neq_patch_paths d :
  d ∈ SUBFOLDERS ∨ d = "index.html" →
  path d ≠ rootParsersPath env ∧ path d ≠ nestedPath env.
Proof.
  unfold SUBFOLDERS. rewrite !elem_of_cons, elem_of_nil.
  intros Hd; split; intros H;
    unfold path, rootParsersPath, nestedPath, pjoin, Path.join_list, Path.join in H;
    simpl fold_left in H; rewrite ?append_assoc in H; apply append_inj_l in H;
    unfold Path.sep in H; destruct (Path.is_win32 _);
    destruct_or!; subst d; vm_compute in H; discriminate H.
Qed.

(** ** The events of one iteration of the loop of step 5 *)

Lemma build_subfolder_cases d w :
  build_subfolder env d w = (Ok tt, w, [EExistsSync (path d) false]) ∨
  ∃ ok fs', build_subfolder env d w = (Ok tt, set_files w fs', unit_events d ok).
Proof.
  unfold build_subfolder, bind, existsSync. fold (path d).
  destruct (files w !! path d) as [x|]; [right | by left].
  unfold runQuiet, try_catch, bind, console_log, console_error, throw, execSync.
  destruct (execSync_effect env _ _ _) as [[msg|] fs'].
  - by exists false, fs'.
  - by exists true, fs'.
Qed.

Lemma for_of_subfolders dirs w :
  ∃ w' t, for_of dirs (build_subfolder env) w = (Ok tt, w', t) ∧
          loop_trace dirs t ∧ serverProcess w' = serverProcess w.
Proof.
  revert w. induction dirs as [|d dirs IH]; intros w.
  - exists w, []. repeat split. constructor.
  - simpl. unfold bind.
    destruct (build_subfolder_cases d w) as [-> | (ok & fs' & ->)].
    + destruct (IH w) as (w' & t & -> & Ht & Hs).
      exists w', (EExistsSync (path d) false :: t). repeat split; [|done].
      by constructor.
    + destruct (IH (set_files w fs')) as (w' & t & -> & Ht & Hs).
      exists w', (unit_events d ok ++ t). repeat split; [|done].
      by constructor.
Qed.

(** ** Computations that leave [serverProcess] alone *)

Lemma framed_ret {A} (a : A) : framed (ret a).
Proof. by intros w s. Qed.

Lemma framed_throw {A} (e : exn) : framed (throw (A := A) e).
Proof. by intros w s. Qed.

Lemma framed_bind {A B} (m : M A) (k : A → M B) :
  framed m → (∀ a, framed (k a)) → framed (bind m k).
Proof.
  intros Hm Hk w s. unfold bind. rewrite Hm.
  destruct (m w) as [[[a|e] w1] t1]; [|done].
  rewrite Hk. by destruct (k a w1) as [[r2 w2] t2].
Qed.

Lemma framed_try_catch {A} (m : M A) (h : exn → M A) :
  framed m → (∀ e, framed (h e)) → framed (try_catch m h).
Proof.
  intros Hm Hh w s. unfold try_catch. rewrite Hm.
  destruct (m w) as [[[a|e] w1] t1]; [done|].
  rewrite Hh. by destruct (h e w1) as [[r2 w2] t2].
Qed.

Lemma framed_for_of {A} (xs : list A) (body : A → M unit) :
  (∀ x, framed (body x)) → framed (for_of xs body).
Proof.
  intros Hb. induction xs as [|x xs IH]; simpl.
  - apply framed_ret.
  - by apply framed_bind.
Qed.

Lemma framed_console_log line : framed (console_log line).
Proof. by intros w s. Qed.

Lemma framed_console_error line : framed (console_error line).
Proof. by intros w s. Qed.

Lemma framed_existsSync p : framed (existsSync p).
Proof. by intros w s. Qed.

Lemma framed_readFileSync p : framed (readFileSync p).
Proof. intros w s. unfold readFileSync. simpl. by repeat case_match. Qed.

Lemma framed_writeFileSync p c : framed (writeFileSync p c).
Proof. intros w s. unfold writeFileSync. simpl. by repeat case_match. Qed.

Lemma framed_execSync cmd cwd io : framed (execSync env cmd cwd io).
Proof. intros w s. unfold execSync. simpl. by repeat case_match. Qed.

Lemma framed_writeAllFeaturePages : framed (writeAllFeaturePages env).
Proof. intros w s. unfold writeAllFeaturePages. simpl. by repeat case_match. Qed.

Ltac framed_step :=
  first
    [ apply framed_bind; [|intros ?]
    | apply framed_try_catch; [|intros ?]
    | apply framed_for_of; intros ?
    | apply framed_ret
    | apply framed_throw
    | apply framed_console_log
    | apply framed_console_error
    | apply framed_existsSync
    | apply framed_readFileSync
    | apply framed_writeFileSync
    | apply framed_execSync
    | apply framed_writeAllFeaturePages
    | case_match ].

Lemma framed_run cmd cwd : framed (run env cmd cwd).
Proof. unfold run. repeat framed_step. Qed.

Lemma framed_patch : framed (patchScrollCliIfNeeded env).
Proof. unfold patchScrollCliIfNeeded. repeat framed_step. Qed.

Lemma framed_build_subfolder d : framed (build_subfolder env d).
Proof. unfold build_subfolder, runQuiet. repeat framed_step. Qed.

Lemma framed_build : framed (build env).
Proof.
  unfold build.
  repeat first [ apply framed_run | apply framed_patch | apply framed_build_subfolder
               | framed_step ].
Qed.

Lemma framed_serverProcess {A} (m : M A) w :
  framed m → serverProcess (world_of (m w)) = serverProcess w.
Proof.
  intros Hm. specialize (Hm w (serverProcess w)).
  assert (set_serverProcess w (serverProcess w) = w) as Hw by by destruct w.
  rewrite Hw in Hm. destruct (m w) as [[r w'] t]. simpl.
  by injection Hm as ->.
Qed.

(** ** The traces of [build] *)

Lemma patch_trace_sound w :
  Forall patch_event (trace_of (patchScrollCliIfNeeded env w)).
Proof.
  unfold patchScrollCliIfNeeded, trace_of, bind, existsSync, readFileSync,
    writeFileSync, console_log, ret.
  repeat (case_match; simplify_eq/=);
    repeat first [apply Forall_nil_2 | apply Forall_cons_2]; simpl; auto.
Qed.

Lemma run_cases cmd cwd w :
  (∃ fs', run env cmd cwd w = (Ok tt, set_files w fs', run_events cmd cwd true)) ∨
  (∃ e fs', run env cmd cwd w = (Throw e, set_files w fs', run_events cmd cwd false)).
Proof.
  unfold run, try_catch, bind, console_log, console_error, throw, execSync.
  destruct (execSync_effect env _ _ _) as [[msg|] fs']; [right | left]; eauto.
Qed.

Lemma build_sound w :
  ∃ r w' t, build env w = (r, w', t) ∧ build_run r t ∧
            serverProcess w' = serverProcess w.
Proof.
  pose proof (framed_serverProcess (build env) w framed_build) as Hs.
  destruct (build env w) as [[r w'] t] eqn:Hb. exists r, w', t.
  split; [done|]. split; [|done]. clear Hs.
  revert Hb. unfold build.
  unfold bind at 1 2 3 4. unfold console_log at 1 2 3. 
  destruct (run_cases parsers_cmd (ROOT env) w) as [(fs1 & ->) | (e & fs1 & ->)];
    [|intros [= <- <- <-]; apply build_fail_parsers].
  unfold bind at 1 2. unfold console_log at 1.
  pose proof (patch_trace_sound (set_files w fs1)) as Hpt.
  destruct (patchScrollCliIfNeeded env _) as [[[[]|e] w2] pt]; unfold trace_of in Hpt; simpl in Hpt;
    [|intros [= <- <- <-]; by apply build_fail_patch].
  unfold bind at 1 2. unfold console_log at 1.
  destruct (run_cases (scroll_build_cmd env) (ROOT env) w2) as [(fs3 & ->) | (e & fs3 & ->)];
    [|intros [= <- <- <-]; by apply build_fail_root].
  unfold bind at 1 2. unfold console_log at 1. unfold writeAllFeaturePages.
  destruct (writeAllFeaturePages_effect env _) as [[msg|] fs4]; simpl files;
    [intros [= <- <- <-]; by apply (build_fail_pages _ pt)|].
  unfold bind at 1 2 3 4. unfold console_log.
  destruct (for_of_subfolders SUBFOLDERS (set_files (set_files w2 fs3) fs4))
    as (w5 & body & -> & Hbody & _).
  intros [= <- <- <-]. by apply (build_complete pt body).
Qed.

(** ** The traces of the whole script *)

Lemma setup_serve fs0 :
  shouldServe env = true →
  fs0 !! index_html env ≠ Some Dir →
  setup env {| files := fs0; serverProcess := None |} =
    (Ok tt, world_after_setup fs0, setup_events).
Proof.
  intros Hs Hd. unfold setup. rewrite Hs.
  unfold bind, console_log, writeMaintenancePage, startBackgroundServer, bind,
    writeFileSync, console_log, spawn, assign_serverProcess. simpl.
  destruct (fs0 !! index_html env) as [[c|]|] eqn:E; try done.
Qed.

Lemma handlers_cases w :
  ∃ o w' t, try_catch (build env ;; on_fulfilled env)%js on_rejected w = (Ok o, w', t) ∧
    ((∃ tb, build_run (Ok tt) tb ∧ t = tb ++ then_events (shouldServe env) ∧
            o = (if shouldServe env then Serving else Exited 0) ∧
            serverProcess w' = serverProcess w) ∨
     (∃ e tb, build_run (Throw e) tb ∧ o = Exited 1 ∧
            t = tb ++ EConsoleError (build_failed_line (message e)) ::
                  match serverProcess w with Some _ => [EKill] | None => [] end ∧
            serverProcess w' =
              (λ c, {| bound_port := bound_port c;
                       shell_running := false;
                       server_running := server_running c |}) <$> serverProcess w)).
Proof.
  destruct (build_sound w) as (r & w1 & tb & Hb & Hrun & Hs).
  unfold try_catch, bind at 1. rewrite Hb.
  destruct r as [[]|e].
  - unfold on_fulfilled.
    destruct (shouldServe env); unfold bind, console_log, ret; simpl;
      eexists _, _, _; (split; [reflexivity|]); left; exists tb; by repeat split.
  - unfold on_rejected, bind, console_error, kill_serverProcess, ret.
    rewrite Hs.
    destruct (serverProcess w) as [c|] eqn:Ec; simpl;
      eexists _, _, _; (split; [reflexivity|]); right; exists e, tb; by repeat split.
Qed.

Lemma main_sound fs0 :
  ∃ o w t, main env fs0 = (o, w, t) ∧ main_run fs0 o (serverProcess w) t.
Proof.
  unfold main.
  destruct (shouldServe env) eqn:Hserve.
  - destruct (decide (fs0 !! index_html env = Some Dir)) as [Hd|Hd].
    + unfold setup. rewrite Hserve.
      unfold bind at 1 2, console_log at 1, writeMaintenancePage, bind, writeFileSync; simpl.
      rewrite Hd. eexists _, _, _. split; [reflexivity|]. by apply main_setup_throws.
    + rewrite (setup_serve fs0 Hserve Hd).
      destruct (handlers_cases (world_after_setup fs0))
        as (o & w' & t & -> & [(tb & Hrun & -> & -> & Hs) | (e & tb & Hrun & -> & -> & Hs)]);
        rewrite ?Hserve; eexists _, _, _; (split; [reflexivity|]); rewrite Hs; simpl.
      * by apply main_serve_built.
      * by apply main_serve_failed.
  - unfold setup. rewrite Hserve. unfold ret at 1.
    destruct (handlers_cases {| files := fs0; serverProcess := None |})
      as (o & w' & t & -> & [(tb & Hrun & -> & -> & Hs) | (e & tb & Hrun & -> & -> & Hs)]);
      rewrite ?Hserve; eexists _, _, _; (split; [reflexivity|]); rewrite Hs; simpl.
    + by apply main_built.
    + by apply main_failed.
Qed.

(** ** Facts about the traces of the loop *)

Lemma exec_cwds_app t1 t2 : exec_cwds (t1 ++ t2) = exec_cwds t1 ++ exec_cwds t2.
Proof. apply omap_app. Qed.

Ltac elem_cases H :=
  repeat first [ rewrite elem_of_app in H | rewrite elem_of_cons in H
               | rewrite elem_of_nil in H ];
  destruct_or?; try done; simplify_eq; try done.

Lemma unit_events_elem d ok e :
  e ∈ unit_events d ok →
  e = EExistsSync (path d) true ∨
  e = EConsoleLog (building_line d) ∨
  e = EConsoleLog (runQuiet_line (scroll_build_cmd env) (path d)) ∨
  e = EExecSync (scroll_build_cmd env) (path d) Pipe ok ∨
  (ok = true ∧ e = EConsoleLog (built_line d)) ∨
  (ok = false ∧ (e = EConsoleError (failed_line (scroll_build_cmd env)) ∨
                 e = EConsoleError (warning_line d))).
Proof. unfold unit_events. destruct ok; intros H; elem_cases H; auto 10. Qed.

Lemma unit_events_exists d ok p b :
  EExistsSync p b ∈ unit_events d ok → p = path d ∧ b = true.
Proof. unfold unit_events. destruct ok; intros H; elem_cases H. Qed.

Lemma unit_events_exec d ok cmd p io ok' :
  EExecSync cmd p io ok' ∈ unit_events d ok →
  cmd = scroll_build_cmd env ∧ p = path d ∧ io = Pipe ∧ ok' = ok.
Proof. unfold unit_events. destruct ok; intros H; elem_cases H. Qed.

Lemma loop_trace_exists dirs t p b :
  loop_trace dirs t → EExistsSync p b ∈ t → ∃ d, d ∈ dirs ∧ p = path d.
Proof.
  induction 1 as [|d dirs t Ht IH|d ok dirs t Ht IH]; intros H.
  - by apply elem_of_nil in H.
  - apply elem_of_cons in H as [[= -> ->]|H].
    + exists d. split; [left | done].
    + destruct (IH H) as (d' & ? & ->). exists d'. split; [by right | done].
  - apply elem_of_app in H as [H|H].
    + apply unit_events_exists in H as [-> _]. exists d. split; [left | done].
    + destruct (IH H) as (d' & ? & ->). exists d'. split; [by right | done].
Qed.

Lemma loop_trace_exec dirs t cmd p io ok :
  loop_trace dirs t → EExecSync cmd p io ok ∈ t →
  ∃ d, d ∈ dirs ∧ p = path d ∧ cmd = scroll_build_cmd env ∧ io = Pipe ∧
       EExistsSync p true ∈ t ∧
       (ok = false → EConsoleError (warning_line d) ∈ t).
Proof.
  induction 1 as [|d dirs t Ht IH|d ok' dirs t Ht IH]; intros H.
  - by apply elem_of_nil in H.
  - apply elem_of_cons in H as [?|H]; [done|].
    destruct (IH H) as (d' & ? & -> & -> & -> & ? & ?).
    exists d'. repeat split; [by right | by right | ]. intros ?. right. auto.
  - apply elem_of_app in H as [H|H].
    + apply unit_events_exec in H as (-> & -> & -> & ->).
      exists d. repeat split; [left | |].
      * apply elem_of_app. left. left.
      * intros ->. apply elem_of_app. left. unfold unit_events.
        rewrite elem_of_app. right. right. left.
    + destruct (IH H) as (d' & ? & -> & -> & -> & ? & ?).
      exists d'. repeat split; [by right | |].
      * apply elem_of_app. by right.
      * intros ?. apply elem_of_app. right. auto.
Qed.

Lemma loop_trace_checked dirs t d :
  loop_trace dirs t → d ∈ dirs → ∃ b, EExistsSync (path d) b ∈ t.
Proof.
  induction 1 as [|d' dirs t Ht IH|d' ok dirs t Ht IH]; intros H.
  - by apply elem_of_nil in H.
  - apply elem_of_cons in H as [->|H].
    + exists false. left.
    + destruct (IH H) as [b ?]. exists b. by right.
  - apply elem_of_cons in H as [->|H].
    + exists true. apply elem_of_app. left. left.
    + destruct (IH H) as [b ?]. exists b. apply elem_of_app. by right.
Qed.

Lemma loop_trace_found dirs t p :
  loop_trace dirs t → EExistsSync p true ∈ t →
  ∃ ok, EExecSync (scroll_build_cmd env) p Pipe ok ∈ t.
Proof.
  induction 1 as [|d dirs t Ht IH|d ok dirs t Ht IH]; intros H.
  - by apply elem_of_nil in H.
  - apply elem_of_cons in H as [?|H]; [done|].
    destruct (IH H) as [ok ?]. exists ok. by right.
  - apply elem_of_app in H as [H|H].
    + apply unit_events_exists in H as [-> _].
      exists ok. apply elem_of_app. left. unfold unit_events.
      rewrite elem_of_app. left. do 3 right. left.
    + destruct (IH H) as [ok' ?]. exists ok'. apply elem_of_app. by right.
Qed.

Lemma loop_trace_missing dirs t d :
  NoDup dirs → loop_trace dirs t →
  EExistsSync (path d) false ∈ t → EExistsSync (path d) true ∉ t.
Proof.
  intros Hnd Ht. revert Hnd.
  induction Ht as [|d' dirs t Ht IH|d' ok dirs t Ht IH]; intros Hnd Hf Htrue.
  - by apply elem_of_nil in Hf.
  - apply NoDup_cons in Hnd as [Hd' Hnd].
    apply elem_of_cons in Htrue as [?|Htrue]; [done|].
    apply elem_of_cons in Hf as [[= Heq]|Hf]; [|by apply IH].
    apply path_inj in Heq as ->.
    destruct (loop_trace_exists _ _ _ _ Ht Htrue) as (d'' & ? & ->%path_inj). done.
  - apply NoDup_cons in Hnd as [Hd' Hnd].
    apply elem_of_app in Hf as [Hf|Hf].
    { by apply unit_events_exists in Hf as [_ ?]. }
    apply elem_of_app in Htrue as [Htrue|Htrue]; [|by apply IH].
    apply unit_events_exists in Htrue as [->%path_inj _].
    destruct (loop_trace_exists _ _ _ _ Ht Hf) as (d'' & ? & ->%path_inj). done.
Qed.

Lemma loop_trace_error dirs t line :
  loop_trace dirs t → EConsoleError line ∈ t →
  line = failed_line (scroll_build_cmd env) ∨
  ∃ d, d ∈ dirs ∧ line = warning_line d ∧
       EExecSync (scroll_build_cmd env) (path d) Pipe false ∈ t.
Proof.
  induction 1 as [|d dirs t Ht IH|d ok dirs t Ht IH]; intros H.
  - by apply elem_of_nil in H.
  - apply elem_of_cons in H as [?|H]; [done|].
    destruct (IH H) as [?|(d' & ? & ? & ?)]; [by left|].
    right. exists d'. repeat split; [by right | done | by right].
  - apply elem_of_app in H as [H|H].
    + apply unit_events_elem in H.
      destruct H as [?|[?|[?|[?|[[_ ?]|[-> [H|H]]]]]]]; try done.
      * left. congruence.
      * right. exists d. repeat split; [left | congruence |].
        apply elem_of_app. left. unfold unit_events. rewrite elem_of_app.
        left. do 3 right. left.
    + destruct (IH H) as [?|(d' & ? & ? & ?)]; [by left|].
      right. exists d'. repeat split; [by right | done |].
      apply elem_of_app. by right.
Qed.

Lemma loop_trace_cwds dirs t :
  loop_trace dirs t → exec_cwds t `sublist_of` (path <$> dirs).
Proof.
  induction 1 as [|d dirs t Ht IH|d ok dirs t Ht IH].
  - constructor.
  - simpl. by apply sublist_cons.
  - rewrite exec_cwds_app.
    replace (exec_cwds (unit_events d ok)) with [path d] by by destruct ok.
    simpl. by apply sublist_skip.
Qed.

Lemma loop_trace_events dirs t : loop_trace dirs t → Forall loop_event t.
Proof.
  induction 1 as [|d dirs t Ht IH|d ok dirs t Ht IH].
  - constructor.
  - by constructor.
  - apply Forall_app. split; [|done].
    unfold unit_events. destruct ok; repeat constructor.
Qed.

(** ** The shape of every trace of the script *)

Lemma patch_event_success e : patch_event e → success_event e.
Proof. destruct e; simpl; tauto. Qed.

Lemma patch_event_head e : patch_event e → head_event e.
Proof. destruct e; simpl; tauto. Qed.

Ltac forall_events :=
  repeat first
    [ apply Forall_nil_2
    | apply Forall_cons_2
    | apply Forall_app_2
    | by eapply Forall_impl; [eassumption | apply patch_event_head]
    | by eapply Forall_impl; [eassumption | apply patch_event_success] ];
  simpl; eauto.

Lemma build_run_split r t :
  build_run r t →
  ∃ head, Forall head_event head ∧
    ((∃ e, r = Throw e ∧ t = head) ∨
     (∃ body, r = Ok tt ∧ loop_trace SUBFOLDERS body ∧
              Forall success_event head ∧
              t = head ++ body ++ complete_events (elapsed env))).
Proof.
  destruct 1 as [e|e pt Hpt|e pt Hpt|e pt Hpt|pt body Hpt Hbody].
  - eexists. split; [|left; eauto]. unfold step1_events, run_events. forall_events.
  - eexists. split; [|left; eauto].
    unfold step1_events, step2_events, run_events. forall_events.
  - eexists. split; [|left; eauto].
    unfold step1_events, step2_events, step3_events, run_events. forall_events.
  - eexists. split; [|left; eauto].
    unfold step1_events, step2_events, step3_events, step4_events, run_events. forall_events.
  - exists (step1_events true ++ step2_events pt ++ step3_events true ++
            step4_events true ++ [EConsoleLog step5_line]).
    split.
    { unfold step1_events, step2_events, step3_events, step4_events, run_events.
      forall_events. }
    right. exists body. repeat split; [done | |].
    + unfold step1_events, step2_events, step3_events, step4_events, run_events.
      forall_events.
    + by rewrite <- !app_assoc.
Qed.

Lemma main_split fs0 :
  ∃ o w tr, main env fs0 = (o, w, tr) ∧
  ∃ head, Forall head_event head ∧
    ((∃ tail, tr = head ++ tail ∧ o = Exited 1 ∧ Forall abort_event tail) ∨
     (∃ body, tr = head ++ body ++ complete_events (elapsed env) ++
                   then_events (shouldServe env) ∧
              loop_trace SUBFOLDERS body ∧
              Forall success_event head ∧
              o = (if shouldServe env then Serving else Exited 0))).
Proof.
  destruct (main_sound fs0) as (o & w & tr & Hm & Hrun).
  exists o, w, tr. split; [done|]. clear Hm.
  destruct Hrun as [msg Hs Hd|t Hs Hb|e t Hs Hb|t Hs Hd Hb|e t Hs Hd Hb].
  - exists [EConsoleLog setup_line]. split; [forall_events|].
    left. exists [EUncaughtException msg]. repeat split. forall_events.
  - apply build_run_split in Hb as (head & Hh & [(e & ? & ->)|(body & _ & Hl & H5 & ->)]); [done|].
    exists head. split; [done|]. right. exists body. rewrite Hs.
    repeat split; try done. by rewrite <- !app_assoc.
  - apply build_run_split in Hb as (head & Hh & [(e' & ? & ->)|(body & ? & _)]); [|done].
    exists head. split; [done|]. left. eexists. repeat split. forall_events.
  - apply build_run_split in Hb as (head & Hh & [(e & ? & ->)|(body & _ & Hl & H5 & ->)]); [done|].
    exists (setup_events ++ head). split; [unfold setup_events; forall_events|].
    right. exists body. rewrite Hs.
    repeat split; try done; [by rewrite <- !app_assoc | unfold setup_events; forall_events].
  - apply build_run_split in Hb as (head & Hh & [(e' & ? & ->)|(body & ? & _)]); [|done].
    exists (setup_events ++ head). split; [unfold setup_events; forall_events|].
    left. eexists. split; [by rewrite <- app_assoc|]. split; [done|]. forall_events.
Qed.

Lemma head_not_subfolder e : head_event e → ¬ subfolder_event e.
Proof.
  destruct e; simpl; try tauto.
  - intros Hp (d & Hd & ->).
    destruct (path_neq_patch_paths d (or_introl Hd)). tauto.
  - intros [Hp _] (d & ->). by apply path_neq_ROOT in Hp.
Qed.

Lemma abort_not_subfolder e : abort_event e → ¬ subfolder_event e.
Proof. destruct e; simpl; tauto. Qed.

Lemma closing_not_subfolder e el serve :
  e ∈ complete_events el ++ then_events serve → ¬ subfolder_event e.
Proof.
  unfold complete_events, then_events. destruct serve; intros H; elem_cases H; simpl; tauto.
Qed.

(** Any event that concerns a subfolder belongs to the loop of a run that
    completed. *)
Lemma main_subfolder_event fs0 e :
  e ∈ trace_of (main env fs0) → subfolder_event e →
  ∃ head body,
    trace_of (main env fs0) =
      head ++ body ++ complete_events (elapsed env) ++ then_events (shouldServe env) ∧
    Forall head_event head ∧ Forall success_event head ∧
    loop_trace SUBFOLDERS body ∧ e ∈ body ∧
    outcome_of (main env fs0) = (if shouldServe env then Serving else Exited 0).
Proof.
  destruct (main_split fs0) as (o & w & tr & -> & head & Hh & Hcases).
  unfold trace_of, outcome_of; simpl. intros He Hsub.
  destruct Hcases as [(tail & -> & -> & Ht)|(body & -> & Hl & H5 & ->)].
  - exfalso. apply elem_of_app in He as [He|He].
    + rewrite Forall_forall in Hh. by apply (head_not_subfolder e (Hh e He)).
    + rewrite Forall_forall in Ht. by apply (abort_not_subfolder e (Ht e He)).
  - exists head, body. repeat split; try done.
    apply elem_of_app in He as [He|He].
    { exfalso. rewrite Forall_forall in Hh. by apply (head_not_subfolder e (Hh e He)). }
    apply elem_of_app in He as [He|He]; [done|].
    exfalso. by apply (closing_not_subfolder e _ _ He).
Qed.

Lemma SUBFOLDERS_NoDup : NoDup SUBFOLDERS.
Proof. compute_done. Qed.

(** ** The order of the generator invocations *)

Lemma exec_cwds_head head :
  Forall head_event head → Forall (λ p, p = ROOT env) (exec_cwds head).
Proof.
  induction 1 as [|e head He Hh IH]; [constructor|].
  destruct e; simpl; try done. constructor; [by destruct He | done].
Qed.

Lemma exec_cwds_closing el serve :
  exec_cwds (complete_events el ++ then_events serve) = [].
Proof. by destruct serve. Qed.

Lemma sublist_fmap_inj {A B} (f : A → B) `{!Inj (=) (=) f} (l1 l2 : list A) :
  f <$> l1 `sublist_of` f <$> l2 → l1 `sublist_of` l2.
Proof.
  revert l1. induction l2 as [|y l2 IH]; intros l1 H.
  - apply sublist_nil_r in H. apply fmap_nil_inv in H as ->. constructor.
  - simpl in H. apply sublist_cons_r in H as [H | (l' & Hl' & H)].
    + apply sublist_cons. by apply IH.
    + destruct l1 as [|x l1]; [done|]. simpl in Hl'. injection Hl' as Hxy <-.
      apply (inj f) in Hxy as ->. apply sublist_skip. by apply IH.
Qed.

Global Instance path_Inj : Inj (=) (=) path.
Proof. intros d d'. apply path_inj. Qed.

(** Two commands run in subfolder directories run in the declared order
    of their subfolders. *)
Lemma invocations_in_declared_order fs0 t1 t2 t3 c1 d1 io1 ok1 c2 d2 io2 ok2 :
  trace_of (main env fs0) =
    t1 ++ [EExecSync c1 (path d1) io1 ok1] ++ t2 ++
    [EExecSync c2 (path d2) io2 ok2] ++ t3 →
  [d1; d2] `sublist_of` SUBFOLDERS.
Proof.
  intros Heq.
  destruct (main_subfolder_event fs0 (EExecSync c1 (path d1) io1 ok1))
    as (head & body & Htr & Hh & _ & Hl & _ & _).
  { rewrite Heq. rewrite !elem_of_app, elem_of_cons. auto. }
  { simpl. eauto. }
  apply (f_equal exec_cwds) in Heq. rewrite Htr in Heq.
  rewrite !exec_cwds_app in Heq. rewrite <- exec_cwds_app, exec_cwds_closing in Heq.
  rewrite app_nil_r in Heq. simpl in Heq.
  assert ([path d1; path d2] `sublist_of` exec_cwds head ++ exec_cwds body)
    as Hsub.
  { rewrite Heq. apply sublist_inserts_l. apply sublist_skip.
    apply sublist_inserts_l. apply sublist_skip. apply sublist_nil_l. }
  apply sublist_app_r in Hsub as (l1 & l2 & Hl12 & Hs1 & Hs2).
  destruct l1 as [|x l1].
  - simpl in Hl12. subst l2. apply (sublist_fmap_inj path).
    etrans; [done|]. by apply loop_trace_cwds.
  - injection Hl12 as <- _. exfalso.
    apply exec_cwds_head in Hh. rewrite Forall_forall in Hh.
    apply (path_neq_ROOT d1). apply Hh.
    eapply elem_of_sublist; [left | done].
Qed.

Ltac sublist_skip_head H :=
  let l' := fresh "l" in
  let Hl' := fresh "Hl" in
  apply sublist_cons_r in H as [H | (l' & Hl' & H)]; [| discriminate Hl'].

Lemma lists_creators_not_sublist : ¬ ["lists"; "creators"] `sublist_of` SUBFOLDERS.
Proof.
  unfold SUBFOLDERS. intros H.
  do 5 sublist_skip_head H.
  apply sublist_cons_r in H as [H | (l' & Hl' & H)].
  - sublist_skip_head H. by apply sublist_nil_r in H.
  - injection Hl' as <-. sublist_skip_head H. by apply sublist_nil_r in H.
Qed.

(** Claim C1.  In every run the generator is never invoked in the directory
    of lists before it is invoked in the directory of creators; and when the
    driver finds both directories on disk, both generators are invoked, the
    one of creators strictly first. *)
Theorem creators_before_lists fs0 :
  (∀ t1 t2 t3 c1 io1 ok1 c2 io2 ok2,
     trace_of (main env fs0) ≠
       t1 ++ [EExecSync c1 (path "lists") io1 ok1] ++ t2 ++
       [EExecSync c2 (path "creators") io2 ok2] ++ t3) ∧
  (EExistsSync (path "creators") true ∈ trace_of (main env fs0) →
   EExistsSync (path "lists") true ∈ trace_of (main env fs0) →
   ∃ t1 t2 t3 ok1 ok2,
     trace_of (main env fs0) =
       t1 ++ [EExecSync (scroll_build_cmd env) (path "creators") Pipe ok1] ++ t2 ++
       [EExecSync (scroll_build_cmd env) (path "lists") Pipe ok2] ++ t3).
Proof.
  assert (∀ t1 t2 t3 c1 io1 ok1 c2 io2 ok2,
    trace_of (main env fs0) ≠
      t1 ++ [EExecSync c1 (path "lists") io1 ok1] ++ t2 ++
      [EExecSync c2 (path "creators") io2 ok2] ++ t3) as never_lists_before_creators.
  { intros * Heq. apply lists_creators_not_sublist.
    by eapply invocations_in_declared_order. }
  split; [done|]. intros Hc Hl.
  assert (∀ d, d ∈ SUBFOLDERS → EExistsSync (path d) true ∈ trace_of (main env fs0) →
            ∃ ok, EExecSync (scroll_build_cmd env) (path d) Pipe ok ∈ trace_of (main env fs0))
    as Hrun.
  { intros d Hd Hf.
    destruct (main_subfolder_event fs0 _ Hf) as (head & body & Htr & _ & _ & Hb & He & _).
    { simpl. eauto. }
    destruct (loop_trace_found _ _ _ Hb He) as [ok Hok]. exists ok.
    rewrite Htr, !elem_of_app. auto. }
  destruct (Hrun "creators") as [ok1 H1]; [compute_done | done |].
  destruct (Hrun "lists") as [ok2 H2]; [compute_done | done |].
  apply list_elem_of_split in H1 as (l1 & l2 & Heq).
  rewrite Heq in H2. apply elem_of_app in H2 as [H2|H2].
  - exfalso. apply list_elem_of_split in H2 as (a & b & ->).
    eapply (never_lists_before_creators a b l2). rewrite Heq.
    rewrite <- !app_assoc. reflexivity.
  - apply elem_of_cons in H2 as [[= Hp]|H2].
    { by apply path_inj in Hp. }
    apply list_elem_of_split in H2 as (a & b & ->).
    exists l1, a, b, ok1, ok2. by rewrite Heq.
Qed.

(** ** Exit status *)

Lemma exit_status_completed fs0 :
  outcome_of (main env fs0) = (if shouldServe env then Serving else Exited 0) →
  exit_status env fs0 = Some 0.
Proof.
  unfold exit_status, run_to_exit.
  destruct (main env fs0) as [[o w] t]; unfold outcome_of; simpl. intros ->.
  destruct (shouldServe env); [|done].
  unfold SIGINT_handler, bind, console_log, kill_serverProcess, ret.
  by destruct (serverProcess w).
Qed.

Lemma loop_event_not_fatal body e :
  Forall loop_event body → e ∈ body →
  match e with
  | EExecSync _ _ Inherit _ | EWriteAllFeaturePages _ | ESpawn _ _ _ | EKill
  | EWriteFileSync _ _ => False
  | _ => True
  end.
Proof.
  rewrite Forall_forall. intros H He. specialize (H e He).
  by destruct e as [| | | | |? ? []| | | | |].
Qed.

(** Claim C2.  If the root build step fails (its generator, run in ROOT,
    exits with a non-zero status), no command is run in the directory of any
    subfolder and the process exits with status 1. *)
Theorem root_failure_is_fatal fs0 :
  EExecSync (scroll_build_cmd env) (ROOT env) Inherit false ∈ trace_of (main env fs0) →
  (∀ d cmd io ok, EExecSync cmd (path d) io ok ∉ trace_of (main env fs0)) ∧
  outcome_of (main env fs0) = Exited 1.
Proof.
  intros Hroot.
  destruct (main_split fs0) as (o & w & tr & Hm & head & Hh & Hcases).
  rewrite Hm in *. unfold trace_of, outcome_of, world_of in *. simpl in *.
  destruct Hcases as [(tail & -> & -> & Ht)|(body & -> & Hl & Hok & ->)].
  - split; [|done]. intros d cmd io ok He.
    apply elem_of_app in He as [He|He].
    + rewrite Forall_forall in Hh. apply (head_not_subfolder _ (Hh _ He)). simpl. eauto.
    + rewrite Forall_forall in Ht. apply (abort_not_subfolder _ (Ht _ He)). simpl. eauto.
  - exfalso. apply elem_of_app in Hroot as [He|He].
    { rewrite Forall_forall in Hok. by specialize (Hok _ He). }
    apply elem_of_app in He as [He|He].
    { by apply (loop_event_not_fatal body _ (loop_trace_events _ _ Hl) He). }
    unfold complete_events, then_events in He. destruct (shouldServe env); elem_cases He.
Qed.

(** Claim C3.  If the generator of a subfolder fails (steps 1 to 4 have then
    succeeded), the driver still looks at every declared subfolder, invokes
    the generator of every subfolder it finds on disk, does so in the
    declared order, and the process exits with status 0: at once without
    [--serve]; under [--serve] it is left serving and exits with status 0
    when interrupted.  This holds for any number of failing subfolders, in
    particular for exactly one. *)
Theorem subfolder_failure_is_isolated fs0 d0 :
  d0 ∈ SUBFOLDERS →
  EExecSync (scroll_build_cmd env) (path d0) Pipe false ∈ trace_of (main env fs0) →
  (∀ d, d ∈ SUBFOLDERS → ∃ found, EExistsSync (path d) found ∈ trace_of (main env fs0)) ∧
  (∀ d, d ∈ SUBFOLDERS →
     EExistsSync (path d) true ∈ trace_of (main env fs0) →
     ∃ ok, EExecSync (scroll_build_cmd env) (path d) Pipe ok ∈ trace_of (main env fs0)) ∧
  (∀ t1 t2 t3 c1 d1 io1 ok1 c2 d2 io2 ok2,
     trace_of (main env fs0) =
       t1 ++ [EExecSync c1 (path d1) io1 ok1] ++ t2 ++
       [EExecSync c2 (path d2) io2 ok2] ++ t3 →
     [d1; d2] `sublist_of` SUBFOLDERS) ∧
  outcome_of (main env fs0) = (if shouldServe env then Serving else Exited 0) ∧
  exit_status env fs0 = Some 0.
Proof.
  intros Hd0 Hfail.
  destruct (main_subfolder_event fs0 _ Hfail) as (head & body & Htr & _ & _ & Hb & _ & Ho).
  { simpl. eauto. }
  repeat split.
  - intros d Hd. destruct (loop_trace_checked _ _ _ Hb Hd) as [b ?].
    exists b. rewrite Htr, !elem_of_app. auto.
  - intros d Hd Hf.
    destruct (main_subfolder_event fs0 _ Hf) as (head' & body' & Htr' & _ & _ & Hb' & He & _).
    { simpl. eauto. }
    destruct (loop_trace_found _ _ _ Hb' He) as [ok Hok]. exists ok.
    rewrite Htr', !elem_of_app. auto.
  - intros *. apply invocations_in_declared_order.
  - done.
  - by apply exit_status_completed.
Qed.

Lemma warning_line_inj d d' : warning_line d = warning_line d' → d = d'.
Proof.
  unfold warning_line. intros H. apply append_inj_l in H. by apply append_inj_r in H.
Qed.

Lemma warning_line_not_failed d cmd : warning_line d ≠ failed_line cmd.
Proof. unfold warning_line, failed_line. intros H. discriminate H. Qed.

(** Claim C8.  For a declared subfolder whose directory the driver does not
    find on disk: no command is run in that directory, no warning line is
    printed for it, and the run completes with exit status 0 (under
    [--serve], once interrupted). *)
Theorem missing_subfolder_is_skipped fs0 d :
  d ∈ SUBFOLDERS →
  EExistsSync (path d) false ∈ trace_of (main env fs0) →
  (∀ cmd io ok, EExecSync cmd (path d) io ok ∉ trace_of (main env fs0)) ∧
  (EConsoleError (warning_line d) ∉ trace_of (main env fs0)) ∧
  outcome_of (main env fs0) = (if shouldServe env then Serving else Exited 0) ∧
  exit_status env fs0 = Some 0.
Proof.
  intros Hd Hmiss.
  destruct (main_subfolder_event fs0 _ Hmiss) as (head & body & Htr & Hh & Hok & Hb & He & Ho).
  { simpl. eauto. }
  assert (∀ cmd io ok, EExecSync cmd (path d) io ok ∉ body) as Hnone.
  { intros cmd io ok Hex.
    destruct (loop_trace_exec _ _ _ _ _ _ Hb Hex) as (d' & _ & _ & _ & _ & Htrue & _).
    by apply (loop_trace_missing _ _ d SUBFOLDERS_NoDup Hb He). }
  repeat split.
  - intros cmd io ok Hex.
    rewrite Htr in Hex. apply elem_of_app in Hex as [Hex|Hex].
    { rewrite Forall_forall in Hh. apply (head_not_subfolder _ (Hh _ Hex)). simpl. eauto. }
    apply elem_of_app in Hex as [Hex|Hex]; [by apply (Hnone cmd io ok)|].
    apply (closing_not_subfolder _ _ _ Hex). simpl. eauto.
  - rewrite Htr. intros Hw. apply elem_of_app in Hw as [Hw|Hw].
    { rewrite Forall_forall in Hok. by specialize (Hok _ Hw). }
    apply elem_of_app in Hw as [Hw|Hw].
    + destruct (loop_trace_error _ _ _ Hb Hw) as [?|(d' & _ & ->%warning_line_inj & ?)].
      * by eapply warning_line_not_failed.
      * by eapply Hnone.
    + unfold complete_events, then_events in Hw. destruct (shouldServe env); elem_cases Hw.
  - done.
  - by apply exit_status_completed.
Qed.

(** The iterations of the loop around a generator that failed. *)
Lemma loop_trace_split dirs t cmd d io :
  loop_trace dirs t → EExecSync cmd (path d) io false ∈ t →
  ∃ l1 l2 before after,
    dirs = l1 ++ d :: l2 ∧ t = before ++ unit_events d false ++ after ∧
    loop_trace l1 before ∧ loop_trace l2 after.
Proof.
  induction 1 as [|d' dirs t Ht IH|d' ok dirs t Ht IH]; intros H.
  - by apply elem_of_nil in H.
  - apply elem_of_cons in H as [?|H]; [done|].
    destruct (IH H) as (l1 & l2 & before & after & -> & -> & H1 & H2).
    exists (d' :: l1), l2, (EExistsSync (path d') false :: before), after.
    repeat split; [by constructor | done].
  - apply elem_of_app in H as [H|H].
    + apply unit_events_exec in H as (_ & ->%path_inj & _ & <-).
      exists [], dirs, [], t. repeat split; [constructor | done].
    + destruct (IH H) as (l1 & l2 & before & after & -> & -> & H1 & H2).
      exists (d' :: l1), l2, (unit_events d' ok ++ before), after.
      repeat split; [by rewrite <- app_assoc | by constructor | done].
Qed.

(** Claim C4, corrected.  A run in which the generator of the subfolder
    [d] failed prints, in this order: the lines of the steps before the
    loop; the iterations of the subfolders declared before [d]; the
    iteration of [d], which ends with the warning line of [d]; the
    iterations of the subfolders declared after [d]; the two closing lines
    of [build] and the lines of the [.then] callback, which depend on the
    elapsed time and on [--serve] only.  Nothing else is printed: [d] is
    reported as failed by its warning line only, which is not printed
    again, and there is no summary of failed units.  The exit status is
    0. *)
Theorem failed_units_reported_as_they_fail fs0 d :
  d ∈ SUBFOLDERS →
  EExecSync (scroll_build_cmd env) (path d) Pipe false ∈ trace_of (main env fs0) →
  (∃ pt l1 l2 before after,
     SUBFOLDERS = l1 ++ d :: l2 ∧ (d ∉ l1) ∧ (d ∉ l2) ∧
     Forall patch_event pt ∧ loop_trace l1 before ∧ loop_trace l2 after ∧
     trace_of (main env fs0) =
       (if shouldServe env then setup_events else []) ++
       step1_events true ++ step2_events pt ++ step3_events true ++
       step4_events true ++ EConsoleLog step5_line ::
       before ++ unit_events d false ++ after ++
       complete_events (elapsed env) ++ then_events (shouldServe env) ∧
     EConsoleError (warning_line d) ∉
       after ++ complete_events (elapsed env) ++ then_events (shouldServe env)) ∧
  outcome_of (main env fs0) = (if shouldServe env then Serving else Exited 0) ∧
  exit_status env fs0 = Some 0.
Proof.
  intros Hd Hfail.
  destruct (main_subfolder_event fs0 _ Hfail) as (_ & _ & _ & _ & _ & _ & _ & Ho).
  { simpl. eauto. }
  split; [|split; [done | by apply exit_status_completed]].
  destruct (main_sound fs0) as (o & w & tr & Hm & Hrun). rewrite Hm in *.
  unfold trace_of, outcome_of in *. simpl in *.
  assert (∃ pt body, Forall patch_event pt ∧ loop_trace SUBFOLDERS body ∧
            tr = (if shouldServe env then setup_events else []) ++
                 step1_events true ++ step2_events pt ++ step3_events true ++
                 step4_events true ++ EConsoleLog step5_line ::
                 body ++ complete_events (elapsed env) ++ then_events (shouldServe env))
    as (pt & body & Hpt & Hbody & ->).
  { destruct Hrun as [msg Hs Hi|t Hs Hb|e t Hs Hb|t Hs Hi Hb|e t Hs Hi Hb];
      rewrite Hs in *; try discriminate Ho;
      inversion Hb as [| | | |pt body Hpt Hbody]; subst;
      exists pt, body; repeat split; try done;
      by rewrite <- ?app_assoc, <- ?app_comm_cons, <- ?app_assoc. }
  assert (EExecSync (scroll_build_cmd env) (path d) Pipe false ∈ body) as He.
  { rewrite Forall_forall in Hpt.
    unfold setup_events, step1_events, step2_events, step3_events, step4_events,
      run_events, complete_events, then_events in Hfail.
    destruct (shouldServe env); simpl in Hfail; elem_cases Hfail;
      by specialize (Hpt _ Hfail). }
  destruct (loop_trace_split _ _ _ _ _ Hbody He)
    as (l1 & l2 & before & after & Hl & -> & H1 & H2).
  exists pt, l1, l2, before, after.
  pose proof SUBFOLDERS_NoDup as Hnd. rewrite Hl in Hnd.
  apply NoDup_app in Hnd as (_ & Hdisj & [Hd2 _]%NoDup_cons).
  repeat split; try done.
  - intros Hin. apply (Hdisj _ Hin). left.
  - by rewrite <- !app_assoc.
  - intros Hw. apply elem_of_app in Hw as [Hw|Hw].
    + destruct (loop_trace_error _ _ _ H2 Hw) as [?|(d' & ? & ->%warning_line_inj & _)].
      * by eapply warning_line_not_failed.
      * done.
    + unfold complete_events, then_events in Hw. destruct (shouldServe env); elem_cases Hw.
Qed.

(** ** The server process *)

Lemma patch_event_build_only e : patch_event e → build_only_event e.
Proof.
  destruct e; simpl; try tauto.
  destruct (path_neq_patch_paths "index.html" (or_intror eq_refl)) as [H1 H2].
  intros [->| ->]; auto.
Qed.

Lemma loop_event_build_only e : loop_event e → build_only_event e.
Proof. destruct e; simpl; tauto. Qed.

Lemma build_run_build_only r t : build_run r t → Forall build_only_event t.
Proof.
  assert (∀ pt, Forall patch_event pt → Forall build_only_event pt) as Hpatch.
  { intros pt Hpt. eapply Forall_impl; [done | apply patch_event_build_only]. }
  destruct 1 as [e|e pt Hpt|e pt Hpt|e pt Hpt|pt body Hpt Hbody];
    unfold step1_events, step2_events, step3_events, step4_events, run_events,
      complete_events;
    repeat first [ apply Forall_nil_2 | apply Forall_cons_2 | apply Forall_app_2
                 | by apply Hpatch ];
    simpl; auto.
  eapply Forall_impl; [by eapply loop_trace_events | apply loop_event_build_only].
Qed.



(** Claim C7, corrected.  When the build completes under [--serve] the
    driver is left serving: the shell and the server spawned before the
    build are both still running, the driver has called [kill()] nowhere
    and has spawned no other process. *)
Theorem server_kept_after_build fs0 :
  outcome_of (main env fs0) = Serving →
  serverProcess (world_of (main env fs0)) = Some started_child ∧
  server_up (world_of (main env fs0)) = true ∧
  (EKill ∉ trace_of (main env fs0)) ∧
  ∃ t, trace_of (main env fs0) = setup_events ++ t ++ then_events true ∧
       ∀ cmd a cwd, ESpawn cmd a cwd ∉ t.
Proof.
  destruct (main_sound fs0) as (o & w & tr & Hm & Hrun). rewrite Hm.
  unfold trace_of, outcome_of, world_of, server_up. simpl. intros ->.
  inversion Hrun as [| | |t Hs Hd Hb|]; subst.
  pose proof (build_run_build_only _ _ Hb) as Hq. rewrite Forall_forall in Hq.
  repeat split.
  - intros Hk. apply elem_of_app in Hk as [Hk|Hk].
    { unfold setup_events in Hk. elem_cases Hk. }
    apply elem_of_app in Hk as [Hk|Hk].
    { by specialize (Hq _ Hk). }
    unfold then_events in Hk. elem_cases Hk.
  - exists t. split; [done|].
    intros cmd a cwd He. by specialize (Hq _ He).
Qed.

(** ** The file index.html *)

Section IndexStable.

Hypothesis Hexec : ∀ cmd cwd fs,
  (execSync_effect env cmd cwd fs).2 !! index_html env = fs !! index_html env.
Hypothesis Hpages : ∀ fs,
  (writeAllFeaturePages_effect env fs).2 !! index_html env = fs !! index_html env.

Lemma index_stable_ret {A} (a : A) : index_stable (ret a).
Proof. by intros w. Qed.

Lemma index_stable_throw {A} (e : exn) : index_stable (throw (A := A) e).
Proof. by intros w. Qed.

Lemma index_stable_bind {A B} (m : M A) (k : A → M B) :
  index_stable m → (∀ a, index_stable (k a)) → index_stable (bind m k).
Proof.
  intros Hm Hk w. unfold bind. specialize (Hm w).
  destruct (m w) as [[[a|e] w1] t1]; [|done].
  specialize (Hk a w1). destruct (k a w1) as [[r2 w2] t2].
  unfold world_of in *. simpl in *. congruence.
Qed.

Lemma index_stable_try_catch {A} (m : M A) (h : exn → M A) :
  index_stable m → (∀ e, index_stable (h e)) → index_stable (try_catch m h).
Proof.
  intros Hm Hh w. unfold try_catch. specialize (Hm w).
  destruct (m w) as [[[a|e] w1] t1]; [done|].
  specialize (Hh e w1). destruct (h e w1) as [[r2 w2] t2].
  unfold world_of in *. simpl in *. congruence.
Qed.

Lemma index_stable_for_of {A} (xs : list A) (body : A → M unit) :
  (∀ x, index_stable (body x)) → index_stable (for_of xs body).
Proof.
  intros Hb. induction xs as [|x xs IH]; simpl.
  - apply index_stable_ret.
  - by apply index_stable_bind.
Qed.

Lemma index_stable_console_log line : index_stable (console_log line).
Proof. by intros w. Qed.

Lemma index_stable_console_error line : index_stable (console_error line).
Proof. by intros w. Qed.

Lemma index_stable_existsSync p : index_stable (existsSync p).
Proof. by intros w. Qed.

Lemma index_stable_readFileSync p : index_stable (readFileSync p).
Proof. intros w. unfold readFileSync. by repeat case_match. Qed.

Lemma index_stable_writeFileSync p c :
  p ≠ index_html env → index_stable (writeFileSync p c).
Proof.
  intros Hp w. unfold writeFileSync.
  repeat case_match; try done; unfold world_of; simpl; by rewrite lookup_insert_ne.
Qed.

Lemma index_stable_execSync cmd cwd io : index_stable (execSync env cmd cwd io).
Proof.
  intros w. unfold execSync. specialize (Hexec cmd cwd (files w)).
  by destruct (execSync_effect env cmd cwd (files w)) as [[msg|] fs'].
Qed.

Lemma index_stable_writeAllFeaturePages : index_stable (writeAllFeaturePages env).
Proof.
  intros w. unfold writeAllFeaturePages. specialize (Hpages (files w)).
  by destruct (writeAllFeaturePages_effect env (files w)) as [[msg|] fs'].
Qed.

Lemma index_stable_kill : index_stable kill_serverProcess.
Proof. intros w. unfold kill_serverProcess. by destruct (serverProcess w). Qed.

Ltac index_stable_step :=
  first
    [ apply index_stable_bind; [|intros ?]
    | apply index_stable_try_catch; [|intros ?]
    | apply index_stable_for_of; intros ?
    | apply index_stable_ret
    | apply index_stable_throw
    | apply index_stable_console_log
    | apply index_stable_console_error
    | apply index_stable_existsSync
    | apply index_stable_readFileSync
    | apply index_stable_execSync
    | apply index_stable_writeAllFeaturePages
    | apply index_stable_kill
    | apply index_stable_writeFileSync;
      apply not_eq_sym;
      apply (path_neq_patch_paths "index.html" (or_intror eq_refl))
    | case_match ].

Lemma index_stable_handlers :
  index_stable (try_catch (build env ;; on_fulfilled env)%js on_rejected).
Proof.
  unfold build, run, patchScrollCliIfNeeded, build_subfolder, runQuiet,
    on_fulfilled, on_rejected.
  repeat index_stable_step.
  by intros w.
Qed.

End IndexStable.

(** Claim C9.  Under [--serve] (index.html of ROOT not being a directory),
    [build] starts in a world where index.html of ROOT holds the maintenance
    page, whatever it held before, and where the server has been spawned;
    the trace begins with the events of that setup; afterwards no server is
    spawned and the driver does not write index.html again; if the process
    is left serving, the server has not been killed and is the one spawned
    at setup; and if no external step changes index.html, it still holds
    the maintenance page at the end: the page is replaced by the build
    regenerating index.html, not by another server. *)
Theorem maintenance_page_then_one_server fs0 :
  shouldServe env = true →
  fs0 !! index_html env ≠ Some Dir →
  ∃ o w t,
    try_catch (build env ;; on_fulfilled env)%js on_rejected
      {| files := <[index_html env := File maintenanceHtml]> fs0;
         serverProcess := Some started_child |} = (Ok o, w, t) ∧
    main env fs0 = (o, w, setup_events ++ t) ∧
    (∀ cmd a cwd, ESpawn cmd a cwd ∉ t) ∧
    (∀ content, EWriteFileSync (index_html env) content ∉ t) ∧
    (o = Serving → (EKill ∉ t) ∧ serverProcess w = Some started_child) ∧
    ((∀ cmd cwd fs,
        (execSync_effect env cmd cwd fs).2 !! index_html env = fs !! index_html env) →
     (∀ fs,
        (writeAllFeaturePages_effect env fs).2 !! index_html env = fs !! index_html env) →
     files w !! index_html env = Some (File maintenanceHtml)).
Proof.
  intros Hserve Hd. fold (world_after_setup fs0).
  unfold main. rewrite (setup_serve fs0 Hserve Hd).
  pose proof (λ H1 H2, index_stable_handlers H1 H2 (world_after_setup fs0)) as Hstable.
  destruct (handlers_cases (world_after_setup fs0))
    as (o & w & t & Hh & Hcases). rewrite Hh in *.
  exists o, w, t. split; [done|]. split; [done|].
  assert (∃ r tb rest, build_run r tb ∧ t = tb ++ rest ∧
            (∀ e, e ∈ rest → match e with
                              | EConsoleLog _ | EConsoleError _ | EOnSIGINT => True
                              | EKill => o = Exited 1
                              | _ => False
                              end)) as (r & tb & rest & Hb & -> & Hrest).
  { destruct Hcases as [(tb & Hb & -> & -> & _)|(e & tb & Hb & -> & -> & _)].
    - exists (Ok tt), tb, (then_events (shouldServe env)). repeat split; [done|].
      intros e He. rewrite Hserve in He. unfold then_events in He. elem_cases He.
    - eexists (Throw e), tb, _. repeat split; [done|].
      intros e' He. simpl in He. elem_cases He. }
  pose proof (build_run_build_only _ _ Hb) as Hq. rewrite Forall_forall in Hq.
  repeat split.
  - intros cmd a cwd He. apply elem_of_app in He as [He|He].
    + by apply (Hq _ He).
    + by apply (Hrest _ He).
  - intros content He. apply elem_of_app in He as [He|He].
    + by apply (Hq _ He).
    + by apply (Hrest _ He).
  - intros He. apply elem_of_app in He as [He|He].
    + by apply (Hq _ He).
    + specialize (Hrest _ He). simpl in Hrest. congruence.
  - destruct Hcases as [(? & _ & _ & _ & ->)|(? & ? & _ & -> & _)]; [done | congruence].
  - intros H1 H2. unfold world_of in Hstable. simpl in Hstable.
    rewrite (Hstable H1 H2). apply lookup_insert_eq.
Qed.

(** Claim C10.  On a platform other than win32 the patch step returns at
    once: it prints one line and leaves the world, the file system included,
    as it was. *)
Theorem patch_is_skipped_off_windows w :
  platform env ≠ "win32" →
  patchScrollCliIfNeeded env w = (Ok tt, w, [EConsoleLog "  Not on Windows, skipping patch"]).
Proof.
  intros Hp. unfold patchScrollCliIfNeeded.
  apply String.eqb_neq in Hp. by rewrite Hp.
Qed.

(** ** The port of the server *)

Lemma framed_on_fulfilled : framed (on_fulfilled env).
Proof.
  unfold on_fulfilled. destruct (shouldServe env); repeat framed_step.
  by intros w s.
Qed.

(** The handlers of the promise of [build] behave alike on two worlds that
    differ in the child process behind [serverProcess]. *)
Lemma handlers_child w c c' :
  serverProcess w = Some c →
  ∃ o w1 w2 t,
    try_catch (build env ;; on_fulfilled env)%js on_rejected w = (Ok o, w1, t) ∧
    try_catch (build env ;; on_fulfilled env)%js on_rejected
      (set_serverProcess w (Some c')) = (Ok o, w2, t) ∧
    files w2 = files w1.
Proof.
  intros Hc.
  pose proof (framed_serverProcess (build env) w framed_build) as Hs.
  unfold try_catch, bind. rewrite framed_build.
  destruct (build env w) as [[[[]|e] w1] t1]; unfold world_of in Hs; simpl in Hs.
  - rewrite framed_on_fulfilled.
    destruct (on_fulfilled env w1) as [[[o|e] w2] t2] eqn:Hf.
    + by eexists _, _, _, _.
    + exfalso. revert Hf. unfold on_fulfilled.
      destruct (shouldServe env); unfold bind, console_log, ret; simpl; congruence.
  - unfold on_rejected, bind, console_error, kill_serverProcess, ret. simpl.
    rewrite Hs, Hc. by eexists _, _, _, _.
Qed.

End Properties.

(** ** Independence of the state of the port *)

(** Claim C6, corrected.  The driver never learns whether the server it
    spawned could bind port 3000: with the port bound by another process or
    free, a run has the same outcome, the same trace (so the same build
    steps) and leaves the same files. *)
Theorem port_is_never_checked env b fs0 :
  outcome_of (main (with_port_in_use env b) fs0) = outcome_of (main env fs0) ∧
  trace_of (main (with_port_in_use env b) fs0) = trace_of (main env fs0) ∧
  files (world_of (main (with_port_in_use env b) fs0)) = files (world_of (main env fs0)).
Proof.
  unfold main.
  change (build (with_port_in_use env b)) with (build env).
  change (on_fulfilled (with_port_in_use env b)) with (on_fulfilled env).
  destruct (shouldServe env) eqn:Hserve.
  - destruct (decide (fs0 !! index_html env = Some Dir)) as [Hd|Hd].
    + unfold setup. change (shouldServe (with_port_in_use env b)) with (shouldServe env).
      rewrite Hserve.
      unfold bind at 1 2 5 6, console_log at 1 3, writeMaintenancePage, bind, writeFileSync.
      change (index_html (with_port_in_use env b)) with (index_html env).
      simpl. by rewrite Hd.
    + rewrite (setup_serve env fs0 Hserve Hd).
      rewrite (setup_serve (with_port_in_use env b) fs0 Hserve Hd).
      change (setup_events (with_port_in_use env b)) with (setup_events env).
      change (world_after_setup (with_port_in_use env b) fs0)
        with (set_serverProcess (world_after_setup env fs0)
                (Some (started_child (with_port_in_use env b)))).
      destruct (handlers_child env (world_after_setup env fs0) (started_child env)
                  (started_child (with_port_in_use env b)) eq_refl)
        as (o & w1 & w2 & t & -> & -> & Hf).
      done.
  - unfold setup. change (shouldServe (with_port_in_use env b)) with (shouldServe env).
    by rewrite Hserve.
Qed.

(** * Further properties of the driver *)

(** ** Replacement in strings *)

Lemma prefix_nil (s : string) : String.prefix "" s = true.
Proof. by destruct s. Qed.

Lemma prefix_cons (a b : ascii) (u s : string) :
  String.prefix (String a u) (String b s) = bool_decide (a = b) && String.prefix u s.
Proof. simpl. destruct (ascii_dec a b); case_bool_decide; done. Qed.

Lemma prefix_spec (u s : string) :
  String.prefix u s = true ↔ ∃ r, s = u +:+ r.
Proof.
  revert s. induction u as [|a u IH]; intros s.
  - rewrite prefix_nil. split; [|done]. intros _. by exists s.
  - destruct s as [|b s].
    + split; [done|]. intros [r Hr]. rewrite append_cons in Hr. done.
    + rewrite prefix_cons, andb_true_iff, bool_decide_eq_true, IH. split.
      * intros [-> [r ->]]. by exists r.
      * intros [r Hr]. rewrite append_cons in Hr. injection Hr as -> ->. eauto.
Qed.

Lemma prefix_app_cases (u rep y : string) :
  String.prefix u (rep +:+ y) = true →
  String.prefix u rep = true ∨ String.prefix rep u = true.
Proof.
  revert rep. induction u as [|a u IH]; intros rep H.
  - left. apply prefix_nil.
  - destruct rep as [|r rep]; [right; apply prefix_nil|].
    rewrite append_cons, prefix_cons in H. rewrite !prefix_cons.
    apply andb_true_iff in H as [Ha H]. apply bool_decide_eq_true in Ha as ->.
    rewrite bool_decide_eq_true_2 by done. simpl. by apply IH.
Qed.

Lemma replace_from_skip (pat rep u s : string) :
  Js.replace_from pat rep (String.length u) (u +:+ s) = Js.replace_from pat rep 0 s.
Proof. induction u as [|a u IH]; [done|]. rewrite append_cons. simpl. apply IH. Qed.

Lemma replace_from_cons (pat rep : string) (d : ascii) (s : string) :
  Js.replace_from pat rep 0 (String d s) =
  if String.prefix pat (String d s)
  then rep +:+ Js.replace_from pat rep (String.length pat - 1) s
  else String d (Js.replace_from pat rep 0 s).
Proof. reflexivity. Qed.

Lemma replace_all_nil (pat rep : string) : Js.replace_all pat rep "" = "".
Proof. reflexivity. Qed.

Lemma replace_all_match (c : ascii) (q rep s : string) :
  Js.replace_all (String c q) rep (String c q +:+ s) =
  rep +:+ Js.replace_all (String c q) rep s.
Proof.
  unfold Js.replace_all. rewrite append_cons, replace_from_cons.
  assert (String.prefix (String c q) (String c (q +:+ s)) = true) as ->.
  { apply prefix_spec. exists s. by rewrite append_cons. }
  replace (String.length (String c q) - 1) with (String.length q) by (simpl; lia).
  by rewrite replace_from_skip.
Qed.

Lemma replace_all_nomatch (pat rep : string) (d : ascii) (s : string) :
  String.prefix pat (String d s) = false →
  Js.replace_all pat rep (String d s) = String d (Js.replace_all pat rep s).
Proof. unfold Js.replace_all. rewrite replace_from_cons. by intros ->. Qed.

Lemma includes_cons (p : string) (d : ascii) (s : string) :
  Js.includes p (String d s) = String.prefix p (String d s) || Js.includes p s.
Proof. reflexivity. Qed.

Lemma includes_nil (c : ascii) (q : string) : Js.includes (String c q) "" = false.
Proof. reflexivity. Qed.

Lemma includes_app_r (p u s : string) :
  Js.includes p s = true → Js.includes p (u +:+ s) = true.
Proof.
  intros H. induction u as [|a u IH]; [done|].
  rewrite append_cons, includes_cons, IH. apply orb_true_r.
Qed.

Lemma includes_char_free (c : ascii) (q rep x : string) :
  char_free c rep = true →
  Js.includes (String c q) (rep +:+ x) = Js.includes (String c q) x.
Proof.
  induction rep as [|r rep IH]; [done|]. simpl char_free.
  intros [Hc Hrep]%andb_true_iff. rewrite append_cons, includes_cons, prefix_cons.
  apply negb_true_iff, Ascii.eqb_neq in Hc.
  rewrite bool_decide_eq_false_2 by done. by apply IH.
Qed.

(** A string without occurrence of the pattern is left as it is. *)
Lemma replace_all_id (pat rep s : string) :
  Js.includes pat s = false → Js.replace_all pat rep s = s.
Proof.
  induction s as [|d s IH]; [done|].
  rewrite includes_cons. intros [Hp Hs]%orb_false_iff.
  rewrite replace_all_nomatch by done. by rewrite IH.
Qed.

Lemma prefix_replace_all (c : ascii) (q rep u s : string) :
  tails_incompatible u rep = true →
  String.prefix u (Js.replace_all (String c q) rep s) = true →
  String.prefix u s = true.
Proof.
  revert s. induction u as [|a u IH]; intros s Hu H; [apply prefix_nil|].
  change (tails_incompatible (String a u) rep)
    with (negb (String.prefix (String a u) rep || String.prefix rep (String a u)) &&
          tails_incompatible u rep) in Hu.
  apply andb_true_iff in Hu as [Hinc Hu].
  destruct s as [|b s]; [done|].
  destruct (String.prefix (String c q) (String b s)) eqn:Hm.
  - apply prefix_spec in Hm as [r Hr]. rewrite Hr, replace_all_match in H.
    apply prefix_app_cases in H. apply negb_true_iff, orb_false_iff in Hinc.
    destruct H, Hinc; congruence.
  - rewrite replace_all_nomatch in H by done. rewrite prefix_cons in *.
    apply andb_true_iff in H as [-> H]. simpl. by apply IH.
Qed.

Lemma string_length_ind (P : string → Prop) :
  (∀ s, (∀ s', String.length s' < String.length s → P s') → P s) → ∀ s, P s.
Proof.
  intros H s. remember (String.length s) as n eqn:Hn. revert s Hn.
  induction n as [n IH] using lt_wf_ind. intros s ->.
  apply H. intros s' Hlt. by apply (IH _ Hlt).
Qed.

(** After the replacement no occurrence of the pattern is left, when the
    replacement holds no first character of the pattern and cannot complete
    a beginning of it. *)
Lemma replace_all_clean (c : ascii) (q rep s : string) :
  tails_incompatible q rep = true →
  char_free c rep = true →
  Js.includes (String c q) (Js.replace_all (String c q) rep s) = false.
Proof.
  intros Hq Hc. induction s as [s IH] using string_length_ind.
  destruct s as [|d s]; [done|].
  destruct (String.prefix (String c q) (String d s)) eqn:Hm.
  - apply prefix_spec in Hm as [r Hr]. rewrite Hr, replace_all_match.
    rewrite includes_char_free by done. apply IH.
    rewrite Hr, append_cons. simpl. rewrite length_append. lia.
  - rewrite replace_all_nomatch by done. rewrite includes_cons.
    rewrite IH by (simpl; lia). rewrite orb_false_r.
    apply not_true_is_false. intros H.
    rewrite prefix_cons in H. apply andb_true_iff in H as [Hcd H].
    apply prefix_replace_all in H; [|done].
    rewrite prefix_cons, Hcd, H in Hm. done.
Qed.

(** The replacement creates no occurrence of a second pattern [p]. *)
Lemma replace_all_no_new (c : ascii) (q rep : string) (c' : ascii) (q' s : string) :
  tails_incompatible q' rep = true →
  char_free c' rep = true →
  Js.includes (String c' q') (Js.replace_all (String c q) rep s) = true →
  Js.includes (String c' q') s = true.
Proof.
  intros Hq Hc. induction s as [s IH] using string_length_ind.
  destruct s as [|d s]; [done|].
  destruct (String.prefix (String c q) (String d s)) eqn:Hm.
  - apply prefix_spec in Hm as [r Hr]. rewrite Hr, replace_all_match.
    rewrite includes_char_free by done. intros H. apply includes_app_r. apply IH; [|done].
    rewrite Hr, append_cons. simpl. rewrite length_append. lia.
  - rewrite replace_all_nomatch by done. rewrite !includes_cons.
    intros [H|H]%orb_true_iff.
    + rewrite prefix_cons in H. apply andb_true_iff in H as [Hcd H].
      apply prefix_replace_all in H; [|done].
      by rewrite prefix_cons, Hcd, H.
    + rewrite (IH s) by (simpl; lia || done). apply orb_true_r.
Qed.

(** ** The patch of root.parsers *)

Lemma patch_content_clean (content : string) :
  Js.includes dirname_pat (patch_content content) = false ∧
  Js.includes basename_pat (patch_content content) = false.
Proof.
  unfold patch_content. split.
  - apply not_true_is_false. intros H.
    apply (replace_all_no_new "U" "tils.posix.basename(this.filePath)" basename_rep
             "U" "tils.posix.dirname(this.filePath)") in H; [|done..].
    rewrite (replace_all_clean "U" "tils.posix.dirname(this.filePath)" dirname_rep) in H;
      done.
  - by apply (replace_all_clean "U" "tils.posix.basename(this.filePath)" basename_rep).
Qed.

Lemma patch_content_idempotent (content : string) :
  patch_content (patch_content content) = patch_content content.
Proof.
  destruct (patch_content_clean content) as [Hd Hb].
  unfold patch_content at 1. by rewrite (replace_all_id dirname_pat), replace_all_id.
Qed.

Section Extras.

Variable env : Env.

Lemma parsers_paths_distinct : rootParsersPath env ≠ nestedPath env.
Proof.
  unfold rootParsersPath, nestedPath, pjoin, Path.join_list, Path.join.
  simpl fold_left. rewrite ?append_assoc. intros H.
  do 6 apply append_inj_l in H.
  unfold Path.sep in H. destruct (Path.is_win32 _); vm_compute in H; discriminate H.
Qed.

(** Property X13.  The patch step changes no file other than the two
    copies of root.parsers. *)
Theorem patch_touches_only_parsers w p :
  p ≠ rootParsersPath env → p ≠ nestedPath env →
  files (world_of (patchScrollCliIfNeeded env w)) !! p = files w !! p.
Proof.
  intros H1 H2.
  unfold patchScrollCliIfNeeded, world_of, bind, existsSync, readFileSync,
    writeFileSync, console_log, ret.
  repeat (case_match; simplify_eq/=); by rewrite ?lookup_insert_ne.
Qed.

Lemma patch_files_sound w :
  files (world_of (patchScrollCliIfNeeded env w)) = patch_files env (files w).
Proof.
  unfold patchScrollCliIfNeeded, patch_files, patch_file, world_of, bind, existsSync,
    readFileSync, writeFileSync, console_log, ret.
  repeat (case_match; simplify_eq/=); try done.
Qed.

Lemma patch_file_lookup p fs :
  patch_file p fs !! p =
  match fs !! p with
  | Some (File content) => Some (File (patch_content content))
  | o => o
  end.
Proof.
  unfold patch_file. destruct (fs !! p) as [[c|]|] eqn:E; rewrite ?lookup_insert_eq; done.
Qed.

Lemma patch_file_lookup_ne p q fs : p ≠ q → patch_file p fs !! q = fs !! q.
Proof.
  intros Hne. unfold patch_file.
  destruct (fs !! p) as [[c|]|]; rewrite ?lookup_insert_ne; done.
Qed.

Lemma patch_file_idempotent p fs : patch_file p (patch_file p fs) = patch_file p fs.
Proof.
  unfold patch_file at 1. rewrite patch_file_lookup.
  destruct (fs !! p) as [[c|]|] eqn:E; try done.
  rewrite patch_content_idempotent. apply insert_id.
  by rewrite patch_file_lookup, E.
Qed.

Lemma patch_file_comm p q fs :
  patch_file p (patch_file q fs) = patch_file q (patch_file p fs).
Proof.
  destruct (decide (p = q)) as [->|Hne]; [done|].
  unfold patch_file at 1 3.
  rewrite !patch_file_lookup_ne by done.
  unfold patch_file.
  destruct (fs !! p) as [[c|]|], (fs !! q) as [[d|]|]; try done.
  by apply insert_insert_ne.
Qed.

(** Property X11.  On win32, when root.parsers is a file that mentions
    Utils.posix.dirname, the patch step leaves it, and the nested copy when
    that is a file, with no call of Utils.posix.dirname(this.filePath) or
    Utils.posix.basename(this.filePath) left. *)
Theorem patched_file_is_clean w content :
  platform env = "win32" →
  files w !! rootParsersPath env = Some (File content) →
  Js.includes "Utils.posix.dirname" content = true →
  files (world_of (patchScrollCliIfNeeded env w)) !! rootParsersPath env =
    Some (File (patch_content content)) ∧
  Js.includes dirname_pat (patch_content content) = false ∧
  Js.includes basename_pat (patch_content content) = false ∧
  (∀ nested,
     files w !! nestedPath env = Some (File nested) →
     files (world_of (patchScrollCliIfNeeded env w)) !! nestedPath env =
       Some (File (patch_content nested)) ∧
     Js.includes dirname_pat (patch_content nested) = false ∧
     Js.includes basename_pat (patch_content nested) = false).
Proof.
  intros Hp Hroot Hinc.
  pose proof parsers_paths_distinct as Hne.
  assert (files (world_of (patchScrollCliIfNeeded env w)) =
          patch_file (nestedPath env) (patch_file (rootParsersPath env) (files w))) as ->.
  { rewrite patch_files_sound. unfold patch_files. by rewrite Hp, Hroot, Hinc. }
  destruct (patch_content_clean content) as [Hd Hb].
  repeat split; try done.
  - rewrite patch_file_lookup_ne by done. by rewrite patch_file_lookup, Hroot.
  - rewrite patch_file_lookup, patch_file_lookup_ne by done. by rewrite H.
  - apply patch_content_clean.
  - apply patch_content_clean.
Qed.

(** Property X12.  Running the patch step a second time leaves the files as
    the first run left them. *)
Theorem patch_step_idempotent w :
  files (world_of (patchScrollCliIfNeeded env (world_of (patchScrollCliIfNeeded env w)))) =
  files (world_of (patchScrollCliIfNeeded env w)).
Proof.
  rewrite !patch_files_sound. generalize (files w). intros fs.
  destruct (String.eqb (platform env) "win32") eqn:Hp;
    [|by unfold patch_files; rewrite Hp].
  destruct (fs !! rootParsersPath env) as [[content|]|] eqn:Hroot;
    try (by unfold patch_files; rewrite Hp, Hroot; simpl; rewrite Hroot).
  destruct (Js.includes "Utils.posix.dirname" content) eqn:Hinc;
    [|by unfold patch_files; rewrite Hp, Hroot, Hinc; simpl; rewrite Hroot, Hinc].
  assert (patch_files env fs =
          patch_file (nestedPath env) (patch_file (rootParsersPath env) fs)) as ->.
  { unfold patch_files. by rewrite Hp, Hroot, Hinc. }
  unfold patch_files. rewrite Hp.
  rewrite patch_file_lookup_ne by (apply not_eq_sym, parsers_paths_distinct).
  rewrite patch_file_lookup, Hroot.
  destruct (Js.includes "Utils.posix.dirname" (patch_content content)); [|done].
  by rewrite (patch_file_comm (rootParsersPath env)), !patch_file_idempotent.
Qed.

(** ** Events a computation can produce *)

Section Emits.

Variable P : event → Prop.

Lemma emits_ret {A} (a : A) : emits P (ret a).
Proof. intros w. constructor. Qed.

Lemma emits_throw {A} (e : exn) : emits P (throw (A := A) e).
Proof. intros w. constructor. Qed.

Lemma emits_bind {A B} (m : M A) (k : A → M B) :
  emits P m → (∀ a, emits P (k a)) → emits P (bind m k).
Proof.
  intros Hm Hk w. unfold bind, trace_of. specialize (Hm w).
  destruct (m w) as [[[a|e] w1] t1]; [|done].
  specialize (Hk a w1). destruct (k a w1) as [[r2 w2] t2].
  by apply Forall_app.
Qed.

Lemma emits_try_catch {A} (m : M A) (h : exn → M A) :
  emits P m → (∀ e, emits P (h e)) → emits P (try_catch m h).
Proof.
  intros Hm Hh w. unfold try_catch, trace_of. specialize (Hm w).
  destruct (m w) as [[[a|e] w1] t1]; [done|].
  specialize (Hh e w1). destruct (h e w1) as [[r2 w2] t2].
  by apply Forall_app.
Qed.

Lemma emits_for_of {A} (xs : list A) (body : A → M unit) :
  (∀ x, emits P (body x)) → emits P (for_of xs body).
Proof.
  intros Hb. induction xs as [|x xs IH]; simpl.
  - apply emits_ret.
  - by apply emits_bind.
Qed.

Lemma emits_console_log line : P (EConsoleLog line) → emits P (console_log line).
Proof. intros H w. by repeat constructor. Qed.

Lemma emits_console_error line : P (EConsoleError line) → emits P (console_error line).
Proof. intros H w. by repeat constructor. Qed.

Lemma emits_existsSync p : (∀ b, P (EExistsSync p b)) → emits P (existsSync p).
Proof. intros H w. by repeat constructor. Qed.

Lemma emits_readFileSync p : P (EReadFileSync p) → emits P (readFileSync p).
Proof.
  intros H w. unfold readFileSync, trace_of.
  repeat case_match; simplify_eq/=; by repeat constructor.
Qed.

Lemma emits_writeFileSync p c : P (EWriteFileSync p c) → emits P (writeFileSync p c).
Proof.
  intros H w. unfold writeFileSync, trace_of.
  repeat case_match; simplify_eq/=; by repeat constructor.
Qed.

Lemma emits_execSync cmd cwd io :
  (∀ ok, P (EExecSync cmd cwd io ok)) → emits P (execSync env cmd cwd io).
Proof.
  intros H w. unfold execSync, trace_of.
  repeat case_match; simplify_eq/=; by repeat constructor.
Qed.

Lemma emits_writeAllFeaturePages :
  (∀ ok, P (EWriteAllFeaturePages ok)) → emits P (writeAllFeaturePages env).
Proof.
  intros H w. unfold writeAllFeaturePages, trace_of.
  repeat case_match; simplify_eq/=; by repeat constructor.
Qed.

Lemma emits_spawn cmd a cwd : P (ESpawn cmd a cwd) → emits P (spawn env cmd a cwd).
Proof. intros H w. by repeat constructor. Qed.

Lemma emits_kill : P EKill → emits P kill_serverProcess.
Proof.
  intros H w. unfold kill_serverProcess, trace_of.
  destruct (serverProcess w); by repeat constructor.
Qed.

Lemma emits_assign c : emits P (assign_serverProcess c).
Proof. intros w. constructor. Qed.

(** The trace of the script is made of the events of the setup, of the
    handlers of the promise of [build], and of uncaught exceptions. *)
Lemma main_emits fs0 :
  emits P (setup env) →
  emits P (try_catch (build env ;; on_fulfilled env)%js on_rejected) →
  (∀ msg, P (EUncaughtException msg)) →
  Forall P (trace_of (main env fs0)).
Proof.
  intros Hs Hh Hu. unfold main, trace_of.
  specialize (Hs {| files := fs0; serverProcess := None |}).
  destruct (setup env _) as [[[[]|e] w1] t1]; unfold trace_of in Hs; simpl in *.
  - specialize (Hh w1).
    destruct (try_catch _ _ w1) as [[[o|e] w2] t2]; unfold trace_of in Hh; simpl in *.
    + by apply Forall_app.
    + rewrite !Forall_app. repeat split; try done. by repeat constructor.
  - apply Forall_app. split; [done|]. by repeat constructor.
Qed.

End Emits.

Ltac emits_step :=
  first
    [ apply emits_bind; [|intros ?]
    | apply emits_try_catch; [|intros ?]
    | apply emits_for_of; intros ?
    | apply emits_ret
    | apply emits_throw
    | apply emits_assign
    | apply emits_console_log
    | apply emits_console_error
    | apply emits_existsSync; intros ?
    | apply emits_readFileSync
    | apply emits_writeFileSync
    | apply emits_execSync; intros ?
    | apply emits_writeAllFeaturePages; intros ?
    | apply emits_spawn
    | apply emits_kill
    | case_match ].

(** ** The files the driver writes *)

(** Property X10.  The driver itself writes files in two places only: the
    maintenance page in index.html of ROOT under [--serve], and the two
    copies of root.parsers on win32. *)
Theorem driver_writes_only fs0 p content :
  EWriteFileSync p content ∈ trace_of (main env fs0) →
  (p = index_html env ∧ content = maintenanceHtml ∧ shouldServe env = true) ∨
  ((p = rootParsersPath env ∨ p = nestedPath env) ∧ platform env = "win32").
Proof.
  set (P := λ e, match e with
                 | EWriteFileSync p content =>
                     (p = index_html env ∧ content = maintenanceHtml ∧
                      shouldServe env = true) ∨
                     ((p = rootParsersPath env ∨ p = nestedPath env) ∧
                      platform env = "win32")
                 | _ => True
                 end).
  assert (Forall P (trace_of (main env fs0))) as H.
  { apply main_emits; [| |done].
    - unfold setup, writeMaintenancePage, startBackgroundServer.
      destruct (shouldServe env) eqn:Hs; repeat emits_step; simpl; auto.
    - unfold build, run, patchScrollCliIfNeeded, build_subfolder, runQuiet,
        on_fulfilled, on_rejected.
      repeat emits_step; simpl; auto;
        try (right; split; [auto|];
             match goal with
             | H : negb (String.eqb _ _) = false |- _ =>
                 by apply negb_false_iff, String.eqb_eq in H
             end).
      intros w. by repeat constructor. }
  intros Hin. rewrite Forall_forall in H. apply (H _ Hin).
Qed.

(** ** The steps before the loop *)

Ltac elem_split H :=
  repeat first [ rewrite elem_of_app in H | rewrite elem_of_cons in H
               | rewrite elem_of_nil in H ];
  destruct_or?; try done; simplify_eq; try done.

Lemma parsers_cmd_neq : parsers_cmd ≠ scroll_build_cmd env.
Proof.
  unfold parsers_cmd, scroll_build_cmd, Js.dq. intros H.
  rewrite !append_cons, !append_nil_l in H. discriminate H.
Qed.

Lemma patch_trace_no_exec pt e :
  Forall (patch_event env) pt → e ∈ pt →
  match e with
  | EExecSync _ _ _ _ | EWriteAllFeaturePages _ | EConsoleError _ | ESpawn _ _ _
  | EKill | EOnSIGINT | EUncaughtException _ => False
  | _ => True
  end.
Proof.
  rewrite Forall_forall. intros H He. specialize (H _ He). by destruct e.
Qed.

(** The shape of the trace of a run that completes. *)
Lemma main_completed_shape fs0 :
  outcome_of (main env fs0) = (if shouldServe env then Serving else Exited 0) →
  ∃ pt body,
    Forall (patch_event env) pt ∧ loop_trace env SUBFOLDERS body ∧
    trace_of (main env fs0) =
      (if shouldServe env then setup_events env else []) ++
      step1_events env true ++ step2_events pt ++ step3_events env true ++
      step4_events true ++ EConsoleLog step5_line :: body ++
      complete_events (elapsed env) ++ then_events (shouldServe env).
Proof.
  destruct (main_sound env fs0) as (o & w & tr & -> & Hrun).
  unfold outcome_of, trace_of. simpl. intros Ho.
  destruct Hrun as [msg Hs Hd|t Hs Hb|e t Hs Hb|t Hs Hd Hb|e t Hs Hd Hb];
    rewrite Hs in *; try discriminate Ho;
    inversion Hb as [| | | |pt body Hpt Hbody]; subst;
    exists pt, body; repeat split; try done;
    by rewrite <- ?app_assoc, <- ?app_comm_cons, <- ?app_assoc.
Qed.

(** The shape of the trace of a run that fails: the trace of [build] that
    threw, between the events of the setup and those of the [.catch]
    callback. *)
Lemma main_failed_shape fs0 :
  outcome_of (main env fs0) = Exited 1 →
  (∃ msg, trace_of (main env fs0) = [EConsoleLog setup_line; EUncaughtException msg] ∧
          shouldServe env = true ∧ fs0 !! index_html env = Some Dir) ∨
  (∃ e t, build_run env (Throw e) t ∧
          trace_of (main env fs0) =
            (if shouldServe env then setup_events env else []) ++ t ++
            EConsoleError (build_failed_line (message e)) ::
            (if shouldServe env then [EKill] else [])).
Proof.
  destruct (main_sound env fs0) as (o & w & tr & -> & Hrun).
  unfold outcome_of, trace_of. simpl. intros Ho.
  destruct Hrun as [msg Hs Hd|t Hs Hb|e t Hs Hb|t Hs Hd Hb|e t Hs Hd Hb];
    rewrite Hs; try discriminate Ho.
  - left. eauto.
  - right. exists e, t. by split.
  - right. exists e, t. by split.
Qed.

Lemma main_outcome_cases fs0 :
  outcome_of (main env fs0) = (if shouldServe env then Serving else Exited 0) ∨
  outcome_of (main env fs0) = Exited 1.
Proof.
  destruct (main_sound env fs0) as (o & w & tr & -> & Hrun).
  unfold outcome_of. simpl.
  destruct Hrun as [msg Hs Hd|t Hs Hb|e t Hs Hb|t Hs Hd Hb|e t Hs Hd Hb];
    rewrite ?Hs; auto.
Qed.

Lemma loop_trace_pipe_only body e :
  loop_trace env SUBFOLDERS body → e ∈ body →
  match e with
  | EExecSync _ _ Inherit _ | EWriteAllFeaturePages _ | ESpawn _ _ _ | EKill
  | EWriteFileSync _ _ | EReadFileSync _ | EOnSIGINT | EUncaughtException _ => False
  | _ => True
  end.
Proof.
  intros Hl He. pose proof (loop_trace_events env _ _ Hl) as H.
  rewrite Forall_forall in H. specialize (H _ He).
  by destruct e as [| | | | |? ? []| | | | |].
Qed.

Ltac find_elem :=
  first [ by apply elem_of_cons; left
        | apply elem_of_cons; right; find_elem
        | apply elem_of_app; left; find_elem
        | apply elem_of_app; right; find_elem ].

Ltac unfold_events :=
  unfold setup_events, step1_events, step2_events, step3_events, step4_events,
    run_events, complete_events, then_events in *.

(** Where a command run by [run] can fail: in step 1 or in step 3. *)
Lemma failed_run_cases fs0 cmd cwd :
  EExecSync cmd cwd Inherit false ∈ trace_of (main env fs0) →
  outcome_of (main env fs0) = Exited 1 ∧
  ∃ e t,
    trace_of (main env fs0) =
      (if shouldServe env then setup_events env else []) ++ t ++
      EConsoleError (build_failed_line (message e)) ::
      (if shouldServe env then [EKill] else []) ∧
    ((cmd = parsers_cmd ∧ cwd = ROOT env ∧ t = step1_events env false) ∨
     (cmd = scroll_build_cmd env ∧ cwd = ROOT env ∧
      ∃ pt, Forall (patch_event env) pt ∧
            t = step1_events env true ++ step2_events pt ++ step3_events env false)).
Proof.
  intros Hin.
  destruct (main_outcome_cases fs0) as [Ho|Ho].
  { exfalso. destruct (main_completed_shape fs0 Ho) as (pt & body & Hpt & Hbody & Htr).
    rewrite Htr in Hin. unfold_events.
    destruct (shouldServe env); elem_split Hin;
      first [ by eapply (patch_trace_no_exec pt (EExecSync _ _ _ _))
            | by eapply (loop_trace_pipe_only body (EExecSync _ _ Inherit _)) ]. }
  split; [done|].
  destruct (main_failed_shape fs0 Ho) as [(msg & Htr & _)|(e & t & Hb & Htr)].
  { rewrite Htr in Hin. elem_split Hin. }
  exists e, t. split; [done|]. rewrite Htr in Hin.
  assert (EExecSync cmd cwd Inherit false ∈ t) as Ht.
  { unfold_events. destruct (shouldServe env); elem_split Hin. }
  clear Hin Htr.
  inversion Hb as [e'|e' pt Hpt|e' pt Hpt|e' pt Hpt|]; subst; unfold_events;
    elem_split Ht;
    try (by exfalso; eapply (patch_trace_no_exec pt (EExecSync _ _ _ _))).
  - by left.
  - right. repeat split. by exists pt.
Qed.

(** Property X1.  If step 1 (building the parsers file) fails, the only
    command of the run is that one: no directory is looked at, no feature
    page is generated, and the process exits with status 1. *)
Theorem parsers_failure_is_fatal fs0 :
  EExecSync parsers_cmd (ROOT env) Inherit false ∈ trace_of (main env fs0) →
  (∀ cmd cwd io ok,
     EExecSync cmd cwd io ok ∈ trace_of (main env fs0) →
     cmd = parsers_cmd ∧ cwd = ROOT env ∧ io = Inherit ∧ ok = false) ∧
  (∀ p found, EExistsSync p found ∉ trace_of (main env fs0)) ∧
  (∀ ok, EWriteAllFeaturePages ok ∉ trace_of (main env fs0)) ∧
  outcome_of (main env fs0) = Exited 1.
Proof.
  intros Hin.
  destruct (failed_run_cases fs0 _ _ Hin)
    as (Ho & e & t & Htr & [(_ & _ & ->)|(Hcmd & _)]);
    [|by apply parsers_cmd_neq in Hcmd].
  rewrite Htr. unfold_events.
  repeat split; try done.
  - destruct (shouldServe env); elem_split H.
  - destruct (shouldServe env); elem_split H.
  - destruct (shouldServe env); elem_split H.
  - destruct (shouldServe env); elem_split H.
  - intros p found H. destruct (shouldServe env); elem_split H.
  - intros ok H. destruct (shouldServe env); elem_split H.
Qed.

(** Property X2.  If the feature-page step (step 4) fails, the root build
    had succeeded, no subfolder is looked at, no command is run in a
    subfolder, and the process exits with status 1. *)
Theorem feature_pages_failure_is_fatal fs0 :
  EWriteAllFeaturePages false ∈ trace_of (main env fs0) →
  EExecSync (scroll_build_cmd env) (ROOT env) Inherit true ∈ trace_of (main env fs0) ∧
  (∀ d cmd io ok, EExecSync cmd (path env d) io ok ∉ trace_of (main env fs0)) ∧
  (∀ d found, d ∈ SUBFOLDERS → EExistsSync (path env d) found ∉ trace_of (main env fs0)) ∧
  outcome_of (main env fs0) = Exited 1.
Proof.
  intros Hin.
  destruct (main_outcome_cases fs0) as [Ho|Ho].
  { exfalso. destruct (main_completed_shape fs0 Ho) as (pt & body & Hpt & Hbody & Htr).
    rewrite Htr in Hin. unfold_events.
    destruct (shouldServe env); elem_split Hin;
      first [ by eapply (patch_trace_no_exec pt (EWriteAllFeaturePages _))
            | by eapply (loop_trace_pipe_only body (EWriteAllFeaturePages _)) ]. }
  destruct (main_failed_shape fs0 Ho) as [(msg & Htr & _)|(e & t & Hb & Htr)].
  { rewrite Htr in Hin. elem_split Hin. }
  assert (EWriteAllFeaturePages false ∈ t) as Ht.
  { rewrite Htr in Hin. unfold_events. destruct (shouldServe env); elem_split Hin. }
  assert (∃ pt, Forall (patch_event env) pt ∧
            t = step1_events env true ++ step2_events pt ++ step3_events env true ++
                step4_events false) as (pt & Hpt & ->).
  { inversion Hb as [e'|e' pt Hpt|e' pt Hpt|e' pt Hpt|]; subst; unfold_events;
      elem_split Ht;
      try (by exfalso; eapply (patch_trace_no_exec pt (EWriteAllFeaturePages _))).
    by exists pt. }
  clear Hin Ht Hb.
  assert (∀ e', e' ∈ trace_of (main env fs0) → ¬ subfolder_event env e') as Hnone.
  { intros e' He'. rewrite Htr in He'. unfold_events.
    destruct (shouldServe env); elem_split He'; simpl; try tauto;
      try (by intros [d Hd]; symmetry in Hd; apply path_neq_ROOT in Hd);
      match goal with
      | H : _ ∈ pt |- _ =>
          rewrite Forall_forall in Hpt;
          apply head_not_subfolder, patch_event_head, Hpt, H
      end. }
  repeat split; try done.
  - rewrite Htr. unfold_events.
    destruct (shouldServe env); find_elem.
  - intros d cmd io ok H. apply (Hnone _ H). simpl. eauto.
  - intros d found Hd H. apply (Hnone _ H). simpl. eauto.
Qed.

(** Property X3.  A command is run in the directory of a subfolder only
    after the parsers file has been built, the root folder has been built
    and the feature pages have been generated, each with success and in
    that order. *)
Theorem subfolders_built_after_earlier_steps fs0 d cmd io ok :
  EExecSync cmd (path env d) io ok ∈ trace_of (main env fs0) →
  ∃ t1 t2 t3 t4,
    trace_of (main env fs0) =
      t1 ++ [EExecSync parsers_cmd (ROOT env) Inherit true] ++
      t2 ++ [EExecSync (scroll_build_cmd env) (ROOT env) Inherit true] ++
      t3 ++ [EWriteAllFeaturePages true] ++ t4 ∧
    EExecSync cmd (path env d) io ok ∈ t4.
Proof.
  intros Hin.
  destruct (main_subfolder_event env fs0 _ Hin) as (_ & _ & _ & _ & _ & _ & _ & Ho).
  { simpl. eauto. }
  destruct (main_completed_shape fs0 Ho) as (pt & body & Hpt & Hbody & Htr).
  rewrite Htr in Hin |- *. unfold_events.
  eexists ((if shouldServe env then _ else []) ++ [_; _; _; _]), (_ :: pt ++ [_; _]),
    [_], _.
  split.
  { rewrite <- !app_assoc. simpl. rewrite <- !app_assoc. simpl. reflexivity. }
  assert (path env d ≠ ROOT env) as Hne by apply path_neq_ROOT.
  destruct (shouldServe env); elem_split Hin;
    try (by exfalso; eapply (patch_trace_no_exec pt (EExecSync _ _ _ _)));
    rewrite !elem_of_cons, !elem_of_app; auto.
Qed.

Lemma build_run_exec r t cmd cwd io ok :
  build_run env r t → EExecSync cmd cwd io ok ∈ t →
  (cmd = parsers_cmd ∧ cwd = ROOT env ∧ io = Inherit) ∨
  (cmd = scroll_build_cmd env ∧ cwd = ROOT env ∧ io = Inherit) ∨
  (∃ body, loop_trace env SUBFOLDERS body ∧ EExecSync cmd cwd io ok ∈ body ∧
           ∀ e, e ∈ body → e ∈ t).
Proof.
  intros Hb Hin.
  inversion Hb as [e'|e' pt Hpt|e' pt Hpt|e' pt Hpt|pt body Hpt Hbody]; subst;
    unfold_events; elem_split Hin; auto;
    try (by exfalso; eapply (patch_trace_no_exec pt (EExecSync _ _ _ _))).
  right. right. exists body. repeat split; try done.
  intros e He. rewrite !elem_of_app, !elem_of_cons, !elem_of_app. auto 20.
Qed.

(** Property X4.  Every command the driver runs is the parsers command in
    ROOT, the generator in ROOT, or the generator, with piped output, in a
    declared subfolder that [existsSync] found. *)
Theorem only_known_commands fs0 cmd cwd io ok :
  EExecSync cmd cwd io ok ∈ trace_of (main env fs0) →
  (cmd = parsers_cmd ∧ cwd = ROOT env ∧ io = Inherit) ∨
  (cmd = scroll_build_cmd env ∧ cwd = ROOT env ∧ io = Inherit) ∨
  (∃ d, d ∈ SUBFOLDERS ∧ cmd = scroll_build_cmd env ∧ cwd = path env d ∧ io = Pipe ∧
        EExistsSync (path env d) true ∈ trace_of (main env fs0)).
Proof.
  intros Hin.
  destruct (main_sound env fs0) as (o & w & tr & Hm & Hrun). rewrite Hm in *.
  unfold trace_of in *. simpl in *. clear Hm.
  assert (∃ r t, build_run env r t ∧ EExecSync cmd cwd io ok ∈ t ∧
                 ∀ e, e ∈ t → e ∈ tr) as (r & t & Hb & Ht & Hsub).
  { destruct Hrun as [msg Hs Hd|t Hs Hb|e t Hs Hb|t Hs Hd Hb|e t Hs Hd Hb].
    - elem_split Hin.
    - exists (Ok tt), t. unfold_events. elem_split Hin.
      repeat split; try done. intros e He. apply elem_of_app. auto.
    - exists (Throw e), t. elem_split Hin.
      repeat split; try done. intros e' He. apply elem_of_app. auto.
    - exists (Ok tt), t. unfold_events. elem_split Hin.
      repeat split; try done. intros e He. rewrite !elem_of_app. auto.
    - exists (Throw e), t. unfold_events. elem_split Hin.
      repeat split; try done. intros e' He. rewrite !elem_of_app. auto. }
  destruct (build_run_exec _ _ _ _ _ _ Hb Ht) as [?|[?|(body & Hbody & He & Hbt)]]; auto.
  right. right.
  destruct (loop_trace_exec env _ _ _ _ _ _ Hbody He) as (d & Hd & -> & -> & -> & Hf & _).
  exists d. repeat split; try done. auto.
Qed.

Lemma not_twice_in_SUBFOLDERS d : ¬ [d; d] `sublist_of` SUBFOLDERS.
Proof.
  intros H. apply sublist_NoDup in H; [|apply SUBFOLDERS_NoDup].
  apply NoDup_cons in H as [H _]. apply H. left.
Qed.

(** Property X5.  In no run are two commands run in the directory of the
    same subfolder. *)
Theorem each_subfolder_built_at_most_once fs0 d t1 t2 t3 c1 io1 ok1 c2 io2 ok2 :
  trace_of (main env fs0) ≠
    t1 ++ [EExecSync c1 (path env d) io1 ok1] ++ t2 ++
    [EExecSync c2 (path env d) io2 ok2] ++ t3.
Proof.
  intros H. apply (not_twice_in_SUBFOLDERS d).
  by eapply invocations_in_declared_order.
Qed.

Lemma warning_line_not_build_failed d msg : warning_line d ≠ build_failed_line msg.
Proof. unfold warning_line, build_failed_line. intros H. discriminate H. Qed.

Lemma failed_line_not_build_failed cmd msg : failed_line cmd ≠ build_failed_line msg.
Proof. unfold failed_line, build_failed_line. intros H. discriminate H. Qed.

(** Property X6.  The warning line of a declared subfolder is printed
    exactly when its generator has failed. *)
Theorem warning_iff_generator_failed fs0 d :
  d ∈ SUBFOLDERS →
  (EConsoleError (warning_line d) ∈ trace_of (main env fs0) ↔
   EExecSync (scroll_build_cmd env) (path env d) Pipe false ∈ trace_of (main env fs0)).
Proof.
  intros Hd. split.
  - intros Hw.
    destruct (main_split env fs0) as (o & w & tr & Hm & head & Hh & Hcases).
    rewrite Hm in *. unfold trace_of in *. simpl in *.
    rewrite Forall_forall in Hh.
    assert (EConsoleError (warning_line d) ∉ head) as Hnh.
    { intros H. destruct (Hh _ H) as [cmd Hcmd]. by apply warning_line_not_failed in Hcmd. }
    destruct Hcases as [(tail & -> & _ & Ht)|(body & -> & Hl & _ & _)].
    + exfalso. apply elem_of_app in Hw as [Hw|Hw]; [done|].
      rewrite Forall_forall in Ht. destruct (Ht _ Hw) as [msg Hmsg].
      by apply warning_line_not_build_failed in Hmsg.
    + apply elem_of_app in Hw as [Hw|Hw]; [done|].
      apply elem_of_app in Hw as [Hw|Hw].
      * destruct (loop_trace_error env _ _ _ Hl Hw)
          as [Hf|(d' & _ & ->%warning_line_inj & He)].
        { by apply warning_line_not_failed in Hf. }
        rewrite !elem_of_app. auto.
      * exfalso. unfold complete_events, then_events in Hw.
        destruct (shouldServe env); elem_split Hw.
  - intros Hf.
    destruct (main_subfolder_event env fs0 _ Hf) as (head & body & Htr & _ & _ & Hb & He & _).
    { simpl. eauto. }
    destruct (loop_trace_exec env _ _ _ _ _ _ Hb He)
      as (d' & _ & ->%path_inj & _ & _ & _ & Hw).
    rewrite Htr, !elem_of_app. auto.
Qed.

(** Property X7.  Without [--serve] the driver spawns and kills nothing,
    installs no [SIGINT] handler, does not write index.html, and the process
    exits by itself, with status 0 or 1. *)
Theorem no_server_without_serve fs0 :
  shouldServe env = false →
  (∀ e, e ∈ trace_of (main env fs0) →
        match e with
        | ESpawn _ _ _ | EKill | EOnSIGINT | EUncaughtException _ => False
        | EWriteFileSync p _ => p ≠ index_html env
        | _ => True
        end) ∧
  serverProcess (world_of (main env fs0)) = None ∧
  (outcome_of (main env fs0) = Exited 0 ∨ outcome_of (main env fs0) = Exited 1).
Proof.
  intros Hserve.
  destruct (main_sound env fs0) as (o & w & tr & Hm & Hrun). rewrite Hm.
  unfold trace_of, world_of, outcome_of. simpl. clear Hm.
  destruct Hrun as [msg Hs Hd|t Hs Hb|e t Hs Hb|t Hs Hd Hb|e t Hs Hd Hb];
    try congruence;
    (split; [|by auto]);
    pose proof (build_run_build_only env _ _ Hb) as Hq; rewrite Forall_forall in Hq;
    intros e' He'; apply elem_of_app in He' as [He'|He'];
    try (by apply Hq); unfold then_events in He'; elem_split He'.
Qed.

(** Property X8.  Under [--serve], if index.html of ROOT is a directory,
    writing the maintenance page throws: the process exits with status 1
    after the first line, no server is spawned, no build step is run and the
    file system is left as it was. *)
Theorem setup_failure_is_fatal fs0 :
  shouldServe env = true →
  fs0 !! index_html env = Some Dir →
  main env fs0 =
    (Exited 1, {| files := fs0; serverProcess := None |},
     [EConsoleLog setup_line;
      EUncaughtException
        ("EISDIR: illegal operation on a directory, open '" +:+ index_html env +:+ "'")]).
Proof.
  intros Hs Hd. unfold main, setup. rewrite Hs.
  unfold bind at 1 2, console_log at 1, writeMaintenancePage, bind, writeFileSync. simpl.
  by rewrite Hd.
Qed.

(** Property X9.  The exit status is 0 or 1, and it is 1 exactly when the
    run has printed a Build failed line or has ended on an uncaught
    exception. *)
Theorem exit_status_reported fs0 :
  (exit_status env fs0 = Some 0 ∨ exit_status env fs0 = Some 1) ∧
  (exit_status env fs0 = Some 1 ↔
   ∃ msg, EConsoleError (build_failed_line msg) ∈ trace_of (main env fs0) ∨
          EUncaughtException msg ∈ trace_of (main env fs0)).
Proof.
  destruct (main_outcome_cases fs0) as [Ho|Ho].
  - pose proof (exit_status_completed env fs0 Ho) as He. rewrite He.
    split; [by left|]. split; [done|]. intros [msg Hmsg]. exfalso.
    destruct (main_completed_shape fs0 Ho) as (pt & body & Hpt & Hbody & Htr).
    rewrite Htr in Hmsg. unfold_events.
    destruct Hmsg as [Hin|Hin]; destruct (shouldServe env); elem_split Hin;
      try (by eapply (patch_trace_no_exec pt (EConsoleError _)));
      try (by eapply (patch_trace_no_exec pt (EUncaughtException _)));
      try (by eapply (loop_trace_pipe_only body (EUncaughtException _)));
      match goal with
      | H : EConsoleError _ ∈ body |- _ =>
          destruct (loop_trace_error env _ _ _ Hbody H) as [Hf|(d & _ & Hw & _)];
          [ by symmetry in Hf; apply failed_line_not_build_failed in Hf
          | by symmetry in Hw; apply warning_line_not_build_failed in Hw ]
      end.
  - assert (exit_status env fs0 = Some 1) as He.
    { unfold exit_status, run_to_exit. unfold outcome_of in Ho.
      destruct (main env fs0) as [[o w] t]. simpl in Ho. by subst o. }
    rewrite He. split; [by right|]. split; [|done]. intros _.
    destruct (main_failed_shape fs0 Ho) as [(msg & -> & _)|(e & t & _ & ->)].
    + exists msg. right. find_elem.
    + exists (message e). left. destruct (shouldServe env); find_elem.
Qed.


End Extras.

(** ** Witnesses and counterexamples *)

Lemma creators_before_lists_witness :
  EExistsSync (path env_plain "creators") true ∈ trace_of (main env_plain demo_fs) ∧
  EExistsSync (path env_plain "lists") true ∈ trace_of (main env_plain demo_fs) ∧
  ∃ t1 t2 t3 ok1 ok2,
    trace_of (main env_plain demo_fs) =
      t1 ++ [EExecSync (scroll_build_cmd env_plain) (path env_plain "creators") Pipe ok1] ++
      t2 ++ [EExecSync (scroll_build_cmd env_plain) (path env_plain "lists") Pipe ok2] ++ t3.
Proof.
  assert (EExistsSync (path env_plain "creators") true ∈ trace_of (main env_plain demo_fs))
    as H1 by compute_done.
  assert (EExistsSync (path env_plain "lists") true ∈ trace_of (main env_plain demo_fs))
    as H2 by compute_done.
  split; [exact H1|]. split; [exact H2|].
  exact (proj2 (creators_before_lists env_plain demo_fs) H1 H2).
Defined.

Lemma root_failure_is_fatal_witness :
  EExecSync (scroll_build_cmd env_root_fails) (ROOT env_root_fails) Inherit false
    ∈ trace_of (main env_root_fails demo_fs) ∧
  (∀ d cmd io ok,
     EExecSync cmd (path env_root_fails d) io ok ∉ trace_of (main env_root_fails demo_fs)) ∧
  outcome_of (main env_root_fails demo_fs) = Exited 1.
Proof.
  assert (EExecSync (scroll_build_cmd env_root_fails) (ROOT env_root_fails) Inherit false
            ∈ trace_of (main env_root_fails demo_fs)) as H by compute_done.
  split; [exact H|]. exact (root_failure_is_fatal env_root_fails demo_fs H).
Defined.

Lemma subfolder_failure_is_isolated_witness :
  "books" ∈ SUBFOLDERS ∧
  EExecSync (scroll_build_cmd env_books_fails) (path env_books_fails "books") Pipe false
    ∈ trace_of (main env_books_fails demo_fs) ∧
  (∀ d, d ∈ SUBFOLDERS →
     ∃ found, EExistsSync (path env_books_fails d) found
                ∈ trace_of (main env_books_fails demo_fs)) ∧
  (∀ d, d ∈ SUBFOLDERS →
     EExistsSync (path env_books_fails d) true ∈ trace_of (main env_books_fails demo_fs) →
     ∃ ok, EExecSync (scroll_build_cmd env_books_fails) (path env_books_fails d) Pipe ok
             ∈ trace_of (main env_books_fails demo_fs)) ∧
  (∀ t1 t2 t3 c1 d1 io1 ok1 c2 d2 io2 ok2,
     trace_of (main env_books_fails demo_fs) =
       t1 ++ [EExecSync c1 (path env_books_fails d1) io1 ok1] ++ t2 ++
       [EExecSync c2 (path env_books_fails d2) io2 ok2] ++ t3 →
     [d1; d2] `sublist_of` SUBFOLDERS) ∧
  outcome_of (main env_books_fails demo_fs) =
    (if shouldServe env_books_fails then Serving else Exited 0) ∧
  exit_status env_books_fails demo_fs = Some 0.
Proof.
  assert ("books" ∈ SUBFOLDERS) as H1 by compute_done.
  assert (EExecSync (scroll_build_cmd env_books_fails) (path env_books_fails "books") Pipe false
            ∈ trace_of (main env_books_fails demo_fs)) as H2 by compute_done.
  split; [exact H1|]. split; [exact H2|].
  exact (subfolder_failure_is_isolated env_books_fails demo_fs "books" H1 H2).
Defined.

(** Against claim C4 as stated: the generator fails in books, the process
    exits with status 0, and no line printed after the warning of books
    names books. *)
Lemma failed_unit_not_in_summary :
  EExecSync (scroll_build_cmd env_books_fails) (path env_books_fails "books") Pipe false
    ∈ trace_of (main env_books_fails demo_fs) ∧
  exit_status env_books_fails demo_fs = Some 0 ∧
  named_in_summary "books" (trace_of (main env_books_fails demo_fs)) = false.
Proof. split; [compute_done|]. split; compute_done. Qed.

Lemma failed_units_reported_as_they_fail_witness :
  "books" ∈ SUBFOLDERS ∧
  EExecSync (scroll_build_cmd env_books_fails) (path env_books_fails "books") Pipe false
    ∈ trace_of (main env_books_fails demo_fs) ∧
  (∃ pt l1 l2 before after,
     SUBFOLDERS = l1 ++ "books" :: l2 ∧ ("books" ∉ l1) ∧ ("books" ∉ l2) ∧
     Forall (patch_event env_books_fails) pt ∧
     loop_trace env_books_fails l1 before ∧ loop_trace env_books_fails l2 after ∧
     trace_of (main env_books_fails demo_fs) =
       (if shouldServe env_books_fails then setup_events env_books_fails else []) ++
       step1_events env_books_fails true ++ step2_events pt ++
       step3_events env_books_fails true ++
       step4_events true ++ EConsoleLog step5_line ::
       before ++ unit_events env_books_fails "books" false ++ after ++
       complete_events (elapsed env_books_fails) ++
       then_events (shouldServe env_books_fails) ∧
     EConsoleError (warning_line "books") ∉
       after ++ complete_events (elapsed env_books_fails) ++
       then_events (shouldServe env_books_fails)) ∧
  outcome_of (main env_books_fails demo_fs) =
    (if shouldServe env_books_fails then Serving else Exited 0) ∧
  exit_status env_books_fails demo_fs = Some 0.
Proof.
  assert ("books" ∈ SUBFOLDERS) as H1 by compute_done.
  assert (EExecSync (scroll_build_cmd env_books_fails) (path env_books_fails "books") Pipe false
            ∈ trace_of (main env_books_fails demo_fs)) as H2 by compute_done.
  split; [exact H1|]. split; [exact H2|].
  exact (failed_units_reported_as_they_fail env_books_fails demo_fs "books" H1 H2).
Defined.


(** Against claim C6 as stated: port 3000 is bound by another process at
    the start of a [--serve] run, and yet the build steps are run and the
    process is left serving. *)
Lemma build_runs_with_port_in_use :
  port_in_use env_serve_busy = true ∧
  shouldServe env_serve_busy = true ∧
  EExecSync parsers_cmd (ROOT env_serve_busy) Inherit true
    ∈ trace_of (main env_serve_busy demo_fs) ∧
  EExecSync (scroll_build_cmd env_serve_busy) (path env_serve_busy "blog") Pipe true
    ∈ trace_of (main env_serve_busy demo_fs) ∧
  outcome_of (main env_serve_busy demo_fs) = Serving.
Proof. repeat split; compute_done. Qed.

(** Against claim C7 as stated: the build completes under [--serve], the
    driver has called [kill()] nowhere, and the shell and the server it
    spawned before the build are still running. *)
Lemma server_not_terminated_on_completion :
  shouldServe env_serve = true ∧
  EConsoleLog "✅ Build complete in 12.3s" ∈ trace_of (main env_serve demo_fs) ∧
  (EKill ∉ trace_of (main env_serve demo_fs)) ∧
  serverProcess (world_of (main env_serve demo_fs)) = Some (started_child env_serve) ∧
  server_up (world_of (main env_serve demo_fs)) = true.
Proof. repeat split; compute_done. Qed.

Lemma server_kept_after_build_witness :
  outcome_of (main env_serve demo_fs) = Serving ∧
  serverProcess (world_of (main env_serve demo_fs)) = Some (started_child env_serve) ∧
  server_up (world_of (main env_serve demo_fs)) = true ∧
  (EKill ∉ trace_of (main env_serve demo_fs)) ∧
  ∃ t, trace_of (main env_serve demo_fs) =
         setup_events env_serve ++ t ++ then_events true ∧
       ∀ cmd a cwd, ESpawn cmd a cwd ∉ t.
Proof.
  assert (outcome_of (main env_serve demo_fs) = Serving) as H by compute_done.
  split; [exact H|]. exact (server_kept_after_build env_serve demo_fs H).
Defined.

Lemma missing_subfolder_is_skipped_witness :
  "features" ∈ SUBFOLDERS ∧
  EExistsSync (path env_plain "features") false ∈ trace_of (main env_plain demo_fs) ∧
  (∀ cmd io ok,
     EExecSync cmd (path env_plain "features") io ok ∉ trace_of (main env_plain demo_fs)) ∧
  (EConsoleError (warning_line "features") ∉ trace_of (main env_plain demo_fs)) ∧
  outcome_of (main env_plain demo_fs) = (if shouldServe env_plain then Serving else Exited 0) ∧
  exit_status env_plain demo_fs = Some 0.
Proof.
  assert ("features" ∈ SUBFOLDERS) as H1 by compute_done.
  assert (EExistsSync (path env_plain "features") false ∈ trace_of (main env_plain demo_fs))
    as H2 by compute_done.
  split; [exact H1|]. split; [exact H2|].
  exact (missing_subfolder_is_skipped env_plain demo_fs "features" H1 H2).
Defined.

Lemma patch_is_skipped_off_windows_witness :
  platform env_plain ≠ "win32" ∧
  patchScrollCliIfNeeded env_plain {| files := demo_fs; serverProcess := None |} =
    (Ok tt, {| files := demo_fs; serverProcess := None |},
     [EConsoleLog "  Not on Windows, skipping patch"]).
Proof.
  assert (platform env_plain ≠ "win32") as H by compute_done.
  split; [exact H|]. exact (patch_is_skipped_off_windows env_plain _ H).
Defined.

(** On Windows the patch step does rewrite root.parsers. *)
Example patch_rewrites_on_windows :
  files (world_of (patchScrollCliIfNeeded env_win32 {| files := win32_fs; serverProcess := None |}))
    !! rootParsersPath env_win32 =
  Some (File ("dir require(" +:+ Js.dq +:+ "path" +:+ Js.dq +:+ ").dirname(this.filePath) base require("
              +:+ Js.dq +:+ "path" +:+ Js.dq +:+ ").basename(this.filePath)")).
Proof. vm_compute. reflexivity. Qed.

Lemma maintenance_page_then_one_server_witness :
  shouldServe env_serve = true ∧
  demo_fs !! index_html env_serve ≠ Some Dir ∧
  ∃ o w t,
    try_catch (build env_serve ;; on_fulfilled env_serve)%js on_rejected
      {| files := <[index_html env_serve := File maintenanceHtml]> demo_fs;
         serverProcess := Some (started_child env_serve) |} = (Ok o, w, t) ∧
    main env_serve demo_fs = (o, w, setup_events env_serve ++ t) ∧
    (∀ cmd a cwd, ESpawn cmd a cwd ∉ t) ∧
    (∀ content, EWriteFileSync (index_html env_serve) content ∉ t) ∧
    (o = Serving → (EKill ∉ t) ∧ serverProcess w = Some (started_child env_serve)) ∧
    ((∀ cmd cwd fs,
        (execSync_effect env_serve cmd cwd fs).2 !! index_html env_serve =
        fs !! index_html env_serve) →
     (∀ fs,
        (writeAllFeaturePages_effect env_serve fs).2 !! index_html env_serve =
        fs !! index_html env_serve) →
     files w !! index_html env_serve = Some (File maintenanceHtml)).
Proof.
  assert (shouldServe env_serve = true) as H1 by reflexivity.
  assert (demo_fs !! index_html env_serve ≠ Some Dir) as H2 by compute_done.
  split; [exact H1|]. split; [exact H2|].
  exact (maintenance_page_then_one_server env_serve demo_fs H1 H2).
Defined.

(** In the demo environment the root build regenerates index.html, and
    that is what the server shows once the build is over. *)
Example index_regenerated_by_root_build :
  files (world_of (main env_serve demo_fs)) !! index_html env_serve =
    Some (File "<html>PLDB</html>").
Proof. vm_compute. reflexivity. Qed.

(** ** Witnesses of the further properties *)

Lemma parsers_failure_is_fatal_witness :
  EExecSync parsers_cmd (ROOT env_parsers_fails) Inherit false
    ∈ trace_of (main env_parsers_fails demo_fs) ∧
  (∀ cmd cwd io ok,
     EExecSync cmd cwd io ok ∈ trace_of (main env_parsers_fails demo_fs) →
     cmd = parsers_cmd ∧ cwd = ROOT env_parsers_fails ∧ io = Inherit ∧ ok = false) ∧
  (∀ p found, EExistsSync p found ∉ trace_of (main env_parsers_fails demo_fs)) ∧
  (∀ ok, EWriteAllFeaturePages ok ∉ trace_of (main env_parsers_fails demo_fs)) ∧
  outcome_of (main env_parsers_fails demo_fs) = Exited 1.
Proof.
  assert (EExecSync parsers_cmd (ROOT env_parsers_fails) Inherit false
            ∈ trace_of (main env_parsers_fails demo_fs)) as H by compute_done.
  split; [exact H|]. exact (parsers_failure_is_fatal env_parsers_fails demo_fs H).
Defined.

Lemma feature_pages_failure_is_fatal_witness :
  EWriteAllFeaturePages false ∈ trace_of (main env_pages_fails demo_fs) ∧
  EExecSync (scroll_build_cmd env_pages_fails) (ROOT env_pages_fails) Inherit true
    ∈ trace_of (main env_pages_fails demo_fs) ∧
  (∀ d cmd io ok,
     EExecSync cmd (path env_pages_fails d) io ok ∉ trace_of (main env_pages_fails demo_fs)) ∧
  (∀ d found, d ∈ SUBFOLDERS →
     EExistsSync (path env_pages_fails d) found ∉ trace_of (main env_pages_fails demo_fs)) ∧
  outcome_of (main env_pages_fails demo_fs) = Exited 1.
Proof.
  assert (EWriteAllFeaturePages false ∈ trace_of (main env_pages_fails demo_fs))
    as H by compute_done.
  split; [exact H|]. exact (feature_pages_failure_is_fatal env_pages_fails demo_fs H).
Defined.

Lemma subfolders_built_after_earlier_steps_witness :
  EExecSync (scroll_build_cmd env_plain) (path env_plain "blog") Pipe true
    ∈ trace_of (main env_plain demo_fs) ∧
  ∃ t1 t2 t3 t4,
    trace_of (main env_plain demo_fs) =
      t1 ++ [EExecSync parsers_cmd (ROOT env_plain) Inherit true] ++
      t2 ++ [EExecSync (scroll_build_cmd env_plain) (ROOT env_plain) Inherit true] ++
      t3 ++ [EWriteAllFeaturePages true] ++ t4 ∧
    EExecSync (scroll_build_cmd env_plain) (path env_plain "blog") Pipe true ∈ t4.
Proof.
  assert (EExecSync (scroll_build_cmd env_plain) (path env_plain "blog") Pipe true
            ∈ trace_of (main env_plain demo_fs)) as H by compute_done.
  split; [exact H|].
  exact (subfolders_built_after_earlier_steps env_plain demo_fs _ _ _ _ H).
Defined.

Lemma only_known_commands_witness :
  EExecSync (scroll_build_cmd env_books_fails) (path env_books_fails "books") Pipe false
    ∈ trace_of (main env_books_fails demo_fs) ∧
  ((scroll_build_cmd env_books_fails = parsers_cmd ∧
    path env_books_fails "books" = ROOT env_books_fails ∧ Pipe = Inherit) ∨
   (scroll_build_cmd env_books_fails = scroll_build_cmd env_books_fails ∧
    path env_books_fails "books" = ROOT env_books_fails ∧ Pipe = Inherit) ∨
   (∃ d, d ∈ SUBFOLDERS ∧
         scroll_build_cmd env_books_fails = scroll_build_cmd env_books_fails ∧
         path env_books_fails "books" = path env_books_fails d ∧ Pipe = Pipe ∧
         EExistsSync (path env_books_fails d) true
           ∈ trace_of (main env_books_fails demo_fs))).
Proof.
  assert (EExecSync (scroll_build_cmd env_books_fails) (path env_books_fails "books")
            Pipe false ∈ trace_of (main env_books_fails demo_fs)) as H by compute_done.
  split; [exact H|].
  exact (only_known_commands env_books_fails demo_fs _ _ _ _ H).
Defined.

Lemma warning_iff_generator_failed_witness :
  "books" ∈ SUBFOLDERS ∧
  (EConsoleError (warning_line "books") ∈ trace_of (main env_books_fails demo_fs) ↔
   EExecSync (scroll_build_cmd env_books_fails) (path env_books_fails "books") Pipe false
     ∈ trace_of (main env_books_fails demo_fs)).
Proof.
  assert ("books" ∈ SUBFOLDERS) as H by compute_done.
  split; [exact H|].
  exact (warning_iff_generator_failed env_books_fails demo_fs "books" H).
Defined.

Lemma no_server_without_serve_witness :
  shouldServe env_plain = false ∧
  (∀ e, e ∈ trace_of (main env_plain demo_fs) →
        match e with
        | ESpawn _ _ _ | EKill | EOnSIGINT | EUncaughtException _ => False
        | EWriteFileSync p _ => p ≠ index_html env_plain
        | _ => True
        end) ∧
  serverProcess (world_of (main env_plain demo_fs)) = None ∧
  (outcome_of (main env_plain demo_fs) = Exited 0 ∨
   outcome_of (main env_plain demo_fs) = Exited 1).
Proof.
  assert (shouldServe env_plain = false) as H by reflexivity.
  split; [exact H|]. exact (no_server_without_serve env_plain demo_fs H).
Defined.

Lemma setup_failure_is_fatal_witness :
  shouldServe env_serve = true ∧
  fs_index_dir !! index_html env_serve = Some Dir ∧
  main env_serve fs_index_dir =
    (Exited 1, {| files := fs_index_dir; serverProcess := None |},
     [EConsoleLog setup_line;
      EUncaughtException
        ("EISDIR: illegal operation on a directory, open '" +:+ index_html env_serve +:+ "'")]).
Proof.
  assert (shouldServe env_serve = true) as H1 by reflexivity.
  assert (fs_index_dir !! index_html env_serve = Some Dir) as H2 by compute_done.
  split; [exact H1|]. split; [exact H2|].
  exact (setup_failure_is_fatal env_serve fs_index_dir H1 H2).
Defined.

Lemma driver_writes_only_witness :
  EWriteFileSync (index_html env_serve) maintenanceHtml ∈ trace_of (main env_serve demo_fs) ∧
  ((index_html env_serve = index_html env_serve ∧ maintenanceHtml = maintenanceHtml ∧
    shouldServe env_serve = true) ∨
   ((index_html env_serve = rootParsersPath env_serve ∨
     index_html env_serve = nestedPath env_serve) ∧ platform env_serve = "win32")).
Proof.
  assert (EWriteFileSync (index_html env_serve) maintenanceHtml
            ∈ trace_of (main env_serve demo_fs)) as H by compute_done.
  split; [exact H|]. exact (driver_writes_only env_serve demo_fs _ _ H).
Defined.

Lemma patched_file_is_clean_witness :
  platform env_win32 = "win32" ∧
  win32_fs !! rootParsersPath env_win32 = Some (File unpatched_content) ∧
  Js.includes "Utils.posix.dirname" unpatched_content = true ∧
  files (world_of (patchScrollCliIfNeeded env_win32
                     {| files := win32_fs; serverProcess := None |}))
    !! rootParsersPath env_win32 = Some (File (patch_content unpatched_content)) ∧
  Js.includes dirname_pat (patch_content unpatched_content) = false ∧
  Js.includes basename_pat (patch_content unpatched_content) = false ∧
  (∀ nested,
     win32_fs !! nestedPath env_win32 = Some (File nested) →
     files (world_of (patchScrollCliIfNeeded env_win32
                        {| files := win32_fs; serverProcess := None |}))
       !! nestedPath env_win32 = Some (File (patch_content nested)) ∧
     Js.includes dirname_pat (patch_content nested) = false ∧
     Js.includes basename_pat (patch_content nested) = false).
Proof.
  assert (platform env_win32 = "win32") as H1 by reflexivity.
  assert (win32_fs !! rootParsersPath env_win32 = Some (File unpatched_content))
    as H2 by compute_done.
  assert (Js.includes "Utils.posix.dirname" unpatched_content = true) as H3 by compute_done.
  split; [exact H1|]. split; [exact H2|]. split; [exact H3|].
  exact (patched_file_is_clean env_win32 {| files := win32_fs; serverProcess := None |}
           unpatched_content H1 H2 H3).
Defined.

Lemma patch_touches_only_parsers_witness :
  "C:\pldb\index.html" ≠ rootParsersPath env_win32 ∧
  "C:\pldb\index.html" ≠ nestedPath env_win32 ∧
  files (world_of (patchScrollCliIfNeeded env_win32
                     {| files := win32_fs; serverProcess := None |}))
    !! "C:\pldb\index.html" = win32_fs !! "C:\pldb\index.html".
Proof.
  assert ("C:\pldb\index.html" ≠ rootParsersPath env_win32) as H1 by compute_done.
  assert ("C:\pldb\index.html" ≠ nestedPath env_win32) as H2 by compute_done.
  split; [exact H1|]. split; [exact H2|].
  exact (patch_touches_only_parsers env_win32 {| files := win32_fs; serverProcess := None |}
           "C:\pldb\index.html" H1 H2).
Defined.

